(** * Gesture-driven particle tree: classifier, interaction state machine,
      animation step and photo capture.

    The development embeds the core of [App.tsx]: [detectGesture],
    [capturePhoto], the body of [visionLoop] (with the interval callback it
    installs) and [animate].

    Numbers. A JavaScript number is modelled as a real number ([R]): the
    arithmetic of the program is read as exact arithmetic, [Math.hypot] and
    [Vector3.length] as the square root of the sum of squares, and every
    comparison as the comparison of the reals.  Rounding of IEEE doubles is
    outside the model.

    Randomness and the rendering library. Every [Math.random()] draw and
    every [randomDirection()]/[random()] vector is an input of the function
    that draws it.  The only function of three.js that is not spelled out is
    [Object3D.lookAt]; it is a parameter of the section that defines
    [animate]. *)

From Stdlib Require Import String.
From Stdlib Require Import Reals Lra Lia List Bool Arith ZArith.
Import ListNotations.

Local Open Scope R_scope.

(** ** Comparisons of numbers as booleans *)

Definition Rltb (a b : R) : bool := if Rlt_dec a b then true else false.
Definition Rgtb (a b : R) : bool := Rltb b a.
Definition Reqb (a b : R) : bool := if Req_dec_T a b then true else false.

(** ** Constants of the program *)

Definition TREE_HEIGHT : R := 55.
Definition TREE_BASE_RADIUS : R := 22.
Definition SCATTER_RADIUS : R := 70.
Definition LERP_SPEED : R := 0.025.

(** ** Enumerations ([types.ts] and the gesture type) *)

Inductive AppMode := LOADING | SCATTER | TREE.

Inductive ParticleType :=
  | ORNAMENT | GIFT | CANDY_CANE | STAR_ORNAMENT | BRANCH | BELL
  | SNOWFLAKE | LIGHT | PHOTO.

Inductive GestureType := NONE | FIST | OPEN_ROTATE | PINCH_ZOOM | L_SHAPE_PHOTO.

Definition AppMode_eqb (a b : AppMode) : bool :=
  match a, b with
  | LOADING, LOADING | SCATTER, SCATTER | TREE, TREE => true
  | _, _ => false
  end.

Definition ParticleType_eqb (a b : ParticleType) : bool :=
  match a, b with
  | ORNAMENT, ORNAMENT | GIFT, GIFT | CANDY_CANE, CANDY_CANE
  | STAR_ORNAMENT, STAR_ORNAMENT | BRANCH, BRANCH | BELL, BELL
  | SNOWFLAKE, SNOWFLAKE | LIGHT, LIGHT | PHOTO, PHOTO => true
  | _, _ => false
  end.

Definition GestureType_eqb (a b : GestureType) : bool :=
  match a, b with
  | NONE, NONE | FIST, FIST | OPEN_ROTATE, OPEN_ROTATE
  | PINCH_ZOOM, PINCH_ZOOM | L_SHAPE_PHOTO, L_SHAPE_PHOTO => true
  | _, _ => false
  end.

(** ** Gesture classifier *)

(** A landmark of the hand detector: normalized image coordinates and a
    depth. *)
Record NormalizedLandmark := mkLandmark {
  lx : R;
  ly : R;
  lz : R
}.

(** [Math.hypot(a, b)]. *)
Definition hypot (a b : R) : R := sqrt (a * a + b * b).

(** The local helper [d] of [detectGesture].  Reading [.x] of an element
    that the array does not have raises; [None] stands for that. *)
Definition d (a b : option NormalizedLandmark) : option R :=
  match a, b with
  | Some a, Some b => Some (hypot (lx a - lx b) (ly a - ly b))
  | _, _ => None
  end.

Definition bind {A B : Type} (m : option A) (k : A -> option B) : option B :=
  match m with Some a => k a | None => None end.

Notation "x <- m ;; k" := (bind m (fun x => k))
  (at level 61, m at next level, right associativity).

(** [tips.forEach(t => totalTipDist += d(t, wrist))]. *)
Fixpoint sumTipDist (wrist : option NormalizedLandmark)
    (tips : list (option NormalizedLandmark)) (total : R) : option R :=
  match tips with
  | [] => Some total
  | t :: rest => dt <- d t wrist ;; sumTipDist wrist rest (total + dt)
  end.

Definition detectGesture (lm : list NormalizedLandmark) : option GestureType :=
  let wrist := nth_error lm 0 in
  let thumbTip := nth_error lm 4 in
  let indexTip := nth_error lm 8 in
  let midTip := nth_error lm 12 in
  let ringTip := nth_error lm 16 in
  let pinkyTip := nth_error lm 20 in
  (* 1. PINCH (Thumb + Index close) *)
  pinch <- d thumbTip indexTip ;;
  if Rltb pinch 0.05 then Some PINCH_ZOOM
  else
    (* 2. L-SHAPE (Photo) *)
    indexDist <- d indexTip wrist ;;
    midDist <- d midTip wrist ;;
    ringDist <- d ringTip wrist ;;
    pinkyDist <- d pinkyTip wrist ;;
    (* 3. FIST vs OPEN *)
    let fistOrOpen :=
      totalTipDist <- sumTipDist wrist [indexTip; midTip; ringTip; pinkyTip] 0 ;;
      let avgDist := totalTipDist / 4 in
      if Rltb avgDist 0.25 then Some FIST
      else if Rgtb avgDist 0.35 then Some OPEN_ROTATE
      else Some NONE in
    if Rgtb indexDist 0.3 && Rltb midDist 0.25 && Rltb ringDist 0.25
       && Rltb pinkyDist 0.25
    then
      thumbDist <- d thumbTip wrist ;;
      if Rgtb thumbDist 0.2 then Some L_SHAPE_PHOTO else fistOrOpen
    else fistOrOpen.

(** The Euclidean distance of two landmarks in the image plane, and the
    [k]-th landmark of a hand; the properties of the classifier are stated
    with them. *)
Definition dist2D (a b : NormalizedLandmark) : R :=
  sqrt ((lx a - lx b) * (lx a - lx b) + (ly a - ly b) * (ly a - ly b)).

Definition landmark (lm : list NormalizedLandmark) (k : nat) : NormalizedLandmark :=
  nth k lm (mkLandmark 0 0 0).

(** ** Vectors and scene objects (the part of three.js the program uses) *)

Record Vector3 := mkVector3 {
  vx : R;
  vy : R;
  vz : R
}.

Definition add (a v : Vector3) : Vector3 :=
  mkVector3 (vx a + vx v) (vy a + vy v) (vz a + vz v).

Definition negate (a : Vector3) : Vector3 :=
  mkVector3 (- vx a) (- vy a) (- vz a).

Definition multiplyScalar (a : Vector3) (k : R) : Vector3 :=
  mkVector3 (vx a * k) (vy a * k) (vz a * k).

Definition vlength (a : Vector3) : R :=
  sqrt (vx a * vx a + vy a * vy a + vz a * vz a).

(** [normalize()] is [divideScalar(length() || 1)], and [divideScalar(k)]
    is [multiplyScalar(1 / k)]. *)
Definition normalize (a : Vector3) : Vector3 :=
  let len := vlength a in
  multiplyScalar a (1 / (if Reqb len 0 then 1 else len)).

Definition distanceTo (a v : Vector3) : R :=
  let dx := vx a - vx v in
  let dy := vy a - vy v in
  let dz := vz a - vz v in
  sqrt (dx * dx + dy * dy + dz * dz).

(** [a.lerp(v, alpha)]: each coordinate [c] becomes [c + (v.c - c) * alpha]. *)
Definition lerp (a v : Vector3) (alpha : R) : Vector3 :=
  mkVector3 (vx a + (vx v - vx a) * alpha)
            (vy a + (vy v - vy a) * alpha)
            (vz a + (vz v - vz a) * alpha).

Definition setScalar (k : R) : Vector3 := mkVector3 k k k.

(** An [Object3D] as far as the program reads and writes it: [rotation]
    holds the three Euler angles. *)
Record Object3D := mkObject3D {
  position : Vector3;
  rotation : Vector3;
  scale : Vector3
}.

Definition set_position (v : Vector3) (m : Object3D) : Object3D :=
  mkObject3D v (rotation m) (scale m).
Definition set_rotation (v : Vector3) (m : Object3D) : Object3D :=
  mkObject3D (position m) v (scale m).
Definition set_scale (v : Vector3) (m : Object3D) : Object3D :=
  mkObject3D (position m) (rotation m) v.

(** [mesh.getWorldPosition] for a child of [mainGroup]: the group sits at
    the origin of the scene with unit scale and is turned about the y axis
    by [yaw]. *)
Definition getWorldPosition (yaw : R) (m : Object3D) : Vector3 :=
  let p := position m in
  mkVector3 (cos yaw * vx p + sin yaw * vz p)
            (vy p)
            (- sin yaw * vx p + cos yaw * vz p).

(** [camera.position.set(0, 5, 70)]; the camera is never moved. *)
Definition cameraPosition : Vector3 := mkVector3 0 5 70.

(** ** Particles ([types.ts]) *)

Record Particle := mkParticle {
  mesh : Object3D;
  type : ParticleType;
  treePos : Vector3;
  scatterPos : Vector3;
  velocity : Vector3;
  rotationSpeed : Vector3;
  isPhoto : option bool;
  originalScale : option R
}.

Definition set_mesh (m : Object3D) (p : Particle) : Particle :=
  mkParticle m (type p) (treePos p) (scatterPos p) (velocity p)
             (rotationSpeed p) (isPhoto p) (originalScale p).
Definition set_scatterPos (v : Vector3) (p : Particle) : Particle :=
  mkParticle (mesh p) (type p) (treePos p) v (velocity p)
             (rotationSpeed p) (isPhoto p) (originalScale p).
Definition set_velocity (v : Vector3) (p : Particle) : Particle :=
  mkParticle (mesh p) (type p) (treePos p) (scatterPos p) v
             (rotationSpeed p) (isPhoto p) (originalScale p).

(** [p.originalScale || 1.0]: an absent or zero scale reads as 1. *)
Definition originalScaleOr1 (p : Particle) : R :=
  match originalScale p with
  | Some k => if Reqb k 0 then 1 else k
  | None => 1
  end.

(** [getTreePos], with its three [Math.random()] draws as arguments.
    [Math.pow(0, 0.9)] is 0. *)
Definition pow09 (u : R) : R := if Reqb u 0 then 0 else Rpower u 0.9.

Definition getTreePos (u1 u2 u3 : R) : Vector3 :=
  let hNorm := pow09 u1 in
  let y := hNorm * TREE_HEIGHT - TREE_HEIGHT / 2 in
  let hFactor := (y + TREE_HEIGHT / 2) / TREE_HEIGHT in
  let maxR := TREE_BASE_RADIUS * (1.0 - hFactor) in
  let r := maxR * (0.2 + 0.8 * sqrt u2) in
  let theta := u3 * PI * 2 in
  mkVector3 (cos theta * r) y (sin theta * r).

(** ** Application state

    The refs of the component, the React state the loops write, and what the
    closures and the event loop hold: [lastVideoTime], the yaw of
    [mainGroup], the local [count] of every live [setInterval] callback (in
    the order the intervals were installed) and the number of pending
    [setTimeout(() => setFlash(false), 150)] callbacks. *)

Record AppState := mkAppState {
  modeRef : AppMode;
  gestureRef : GestureType;
  rotationOffsetRef : R;
  rotationSpeedRef : R;
  isCountingDownRef : bool;
  photoModeDebounceRef : Z;
  particlesRef : list Particle;
  appMode : AppMode;
  debugInfo : string;
  countdown : option Z;
  flash : bool;
  showCamera : bool;
  lastVideoTime : R;
  mainGroupRotationY : R;
  intervals : list Z;
  flashTimeouts : nat
}.

Definition set_modeRef (v : AppMode) (s : AppState) : AppState :=
  mkAppState v (gestureRef s) (rotationOffsetRef s) (rotationSpeedRef s)
    (isCountingDownRef s) (photoModeDebounceRef s) (particlesRef s) (appMode
    s) (debugInfo s) (countdown s) (flash s) (showCamera s) (lastVideoTime
    s) (mainGroupRotationY s) (intervals s) (flashTimeouts s).

Definition set_gestureRef (v : GestureType) (s : AppState) : AppState :=
  mkAppState (modeRef s) v (rotationOffsetRef s) (rotationSpeedRef s)
    (isCountingDownRef s) (photoModeDebounceRef s) (particlesRef s) (appMode
    s) (debugInfo s) (countdown s) (flash s) (showCamera s) (lastVideoTime
    s) (mainGroupRotationY s) (intervals s) (flashTimeouts s).

Definition set_rotationOffsetRef (v : R) (s : AppState) : AppState :=
  mkAppState (modeRef s) (gestureRef s) v (rotationSpeedRef s)
    (isCountingDownRef s) (photoModeDebounceRef s) (particlesRef s) (appMode
    s) (debugInfo s) (countdown s) (flash s) (showCamera s) (lastVideoTime
    s) (mainGroupRotationY s) (intervals s) (flashTimeouts s).

Definition set_rotationSpeedRef (v : R) (s : AppState) : AppState :=
  mkAppState (modeRef s) (gestureRef s) (rotationOffsetRef s) v
    (isCountingDownRef s) (photoModeDebounceRef s) (particlesRef s) (appMode
    s) (debugInfo s) (countdown s) (flash s) (showCamera s) (lastVideoTime
    s) (mainGroupRotationY s) (intervals s) (flashTimeouts s).

Definition set_isCountingDownRef (v : bool) (s : AppState) : AppState :=
  mkAppState (modeRef s) (gestureRef s) (rotationOffsetRef s)
    (rotationSpeedRef s) v (photoModeDebounceRef s) (particlesRef s)
    (appMode s) (debugInfo s) (countdown s) (flash s) (showCamera s)
    (lastVideoTime s) (mainGroupRotationY s) (intervals s) (flashTimeouts s).

Definition set_photoModeDebounceRef (v : Z) (s : AppState) : AppState :=
  mkAppState (modeRef s) (gestureRef s) (rotationOffsetRef s)
    (rotationSpeedRef s) (isCountingDownRef s) v (particlesRef s) (appMode
    s) (debugInfo s) (countdown s) (flash s) (showCamera s) (lastVideoTime
    s) (mainGroupRotationY s) (intervals s) (flashTimeouts s).

Definition set_particlesRef (v : list Particle) (s : AppState) : AppState :=
  mkAppState (modeRef s) (gestureRef s) (rotationOffsetRef s)
    (rotationSpeedRef s) (isCountingDownRef s) (photoModeDebounceRef s) v
    (appMode s) (debugInfo s) (countdown s) (flash s) (showCamera s)
    (lastVideoTime s) (mainGroupRotationY s) (intervals s) (flashTimeouts s).

Definition set_appMode (v : AppMode) (s : AppState) : AppState :=
  mkAppState (modeRef s) (gestureRef s) (rotationOffsetRef s)
    (rotationSpeedRef s) (isCountingDownRef s) (photoModeDebounceRef s)
    (particlesRef s) v (debugInfo s) (countdown s) (flash s) (showCamera s)
    (lastVideoTime s) (mainGroupRotationY s) (intervals s) (flashTimeouts s).

Definition set_debugInfo (v : string) (s : AppState) : AppState :=
  mkAppState (modeRef s) (gestureRef s) (rotationOffsetRef s)
    (rotationSpeedRef s) (isCountingDownRef s) (photoModeDebounceRef s)
    (particlesRef s) (appMode s) v (countdown s) (flash s) (showCamera s)
    (lastVideoTime s) (mainGroupRotationY s) (intervals s) (flashTimeouts s).

Definition set_countdown (v : option Z) (s : AppState) : AppState :=
  mkAppState (modeRef s) (gestureRef s) (rotationOffsetRef s)
    (rotationSpeedRef s) (isCountingDownRef s) (photoModeDebounceRef s)
    (particlesRef s) (appMode s) (debugInfo s) v (flash s) (showCamera s)
    (lastVideoTime s) (mainGroupRotationY s) (intervals s) (flashTimeouts s).

Definition set_flash (v : bool) (s : AppState) : AppState :=
  mkAppState (modeRef s) (gestureRef s) (rotationOffsetRef s)
    (rotationSpeedRef s) (isCountingDownRef s) (photoModeDebounceRef s)
    (particlesRef s) (appMode s) (debugInfo s) (countdown s) v (showCamera
    s) (lastVideoTime s) (mainGroupRotationY s) (intervals s) (flashTimeouts
    s).

Definition set_showCamera (v : bool) (s : AppState) : AppState :=
  mkAppState (modeRef s) (gestureRef s) (rotationOffsetRef s)
    (rotationSpeedRef s) (isCountingDownRef s) (photoModeDebounceRef s)
    (particlesRef s) (appMode s) (debugInfo s) (countdown s) (flash s) v
    (lastVideoTime s) (mainGroupRotationY s) (intervals s) (flashTimeouts s).

Definition set_lastVideoTime (v : R) (s : AppState) : AppState :=
  mkAppState (modeRef s) (gestureRef s) (rotationOffsetRef s)
    (rotationSpeedRef s) (isCountingDownRef s) (photoModeDebounceRef s)
    (particlesRef s) (appMode s) (debugInfo s) (countdown s) (flash s)
    (showCamera s) v (mainGroupRotationY s) (intervals s) (flashTimeouts s).

Definition set_mainGroupRotationY (v : R) (s : AppState) : AppState :=
  mkAppState (modeRef s) (gestureRef s) (rotationOffsetRef s)
    (rotationSpeedRef s) (isCountingDownRef s) (photoModeDebounceRef s)
    (particlesRef s) (appMode s) (debugInfo s) (countdown s) (flash s)
    (showCamera s) (lastVideoTime s) v (intervals s) (flashTimeouts s).

Definition set_intervals (v : list Z) (s : AppState) : AppState :=
  mkAppState (modeRef s) (gestureRef s) (rotationOffsetRef s)
    (rotationSpeedRef s) (isCountingDownRef s) (photoModeDebounceRef s)
    (particlesRef s) (appMode s) (debugInfo s) (countdown s) (flash s)
    (showCamera s) (lastVideoTime s) (mainGroupRotationY s) v (flashTimeouts
    s).

Definition set_flashTimeouts (v : nat) (s : AppState) : AppState :=
  mkAppState (modeRef s) (gestureRef s) (rotationOffsetRef s)
    (rotationSpeedRef s) (isCountingDownRef s) (photoModeDebounceRef s)
    (particlesRef s) (appMode s) (debugInfo s) (countdown s) (flash s)
    (showCamera s) (lastVideoTime s) (mainGroupRotationY s) (intervals s) v.

Notation "s |> f" := (f s) (at level 65, left associativity, only parsing).

(** ** Photo capture *)

Record HTMLVideoElement := mkVideo {
  videoWidth : R;
  videoHeight : R
}.

(** What [capturePhoto] reads from outside the application state:
    [videoRef.current], whether [canvas.getContext('2d')] gives a context,
    and the random draws, in the order the function makes them. *)
Record CaptureEnv := mkCaptureEnv {
  videoRef : option HTMLVideoElement;
  context2d : bool;
  treeDraws : R * R * R;
  heightDraw : R;
  scatterDirection : Vector3;
  velocityDirection : Vector3;
  rotationDraw : Vector3
}.

Definition zero3 : Vector3 := mkVector3 0 0 0.

(** The registry after a call of [capturePhoto].  The canvas drawing and the
    materials of the frame do not reach the registry and are left out. *)
Definition capturePhoto (env : CaptureEnv) (particles : list Particle)
  : list Particle :=
  match videoRef env with
  | None => particles
  | Some video =>
      if negb (context2d env) then particles
      else
        let photoGroup := mkObject3D zero3 zero3 (setScalar 0) in
        let '(u1, u2, u3) := treeDraws env in
        let treePos0 :=
          multiplyScalar (normalize (getTreePos u1 u2 u3))
                         (TREE_BASE_RADIUS * 0.8) in
        let treePos1 :=
          mkVector3 (vx treePos0)
                    ((heightDraw env - 0.5) * TREE_HEIGHT * 0.8)
                    (vz treePos0) in
        particles ++
        [ mkParticle photoGroup PHOTO treePos1
            (multiplyScalar (scatterDirection env) SCATTER_RADIUS)
            (multiplyScalar (velocityDirection env) 0.08)
            (multiplyScalar (rotationDraw env) 0.02)
            (Some true) (Some 1.5) ]
  end.

(** ** Interaction state machine: [visionLoop] *)

(** One turn of [visionLoop]: the ready state and the playback time of the
    video element, and [results.landmarks] as the detector would return it
    for this frame (one list of landmarks per detected hand). *)
Record VideoFrame := mkVideoFrame {
  readyState : Z;
  currentTime : R;
  landmarks : list (list NormalizedLandmark)
}.

(** The guard of [visionLoop]; [handLandmarker] and [v] are set before the
    loop starts. *)
Definition processed (s : AppState) (f : VideoFrame) : bool :=
  (readyState f >=? 2)%Z && negb (Reqb (currentTime f) (lastVideoTime s)).

(** Entering the countdown: the body of [if (photoModeDebounceRef.current > 10)]. *)
Definition startCountdown (s : AppState) : AppState :=
  s |> set_isCountingDownRef true
    |> set_countdown (Some 3%Z)
    |> set_showCamera true
    |> (fun s => set_intervals (intervals s ++ [3%Z]) s).

(** 1. L-SHAPE -> PHOTO COUNTDOWN *)
Definition photoStep (detectedGesture : GestureType) (s : AppState) : AppState :=
  if GestureType_eqb detectedGesture L_SHAPE_PHOTO then
    let s := s |> set_debugInfo "L-SHAPE: PREPARING PHOTO"%string
               |> set_rotationSpeedRef 0.005 in
    if negb (isCountingDownRef s) then
      let s := set_photoModeDebounceRef (photoModeDebounceRef s + 1)%Z s in
      if (photoModeDebounceRef s >? 10)%Z then startCountdown s else s
    else s
  else set_photoModeDebounceRef 0%Z s.

Definition enterMode (m : AppMode) (s : AppState) : AppState :=
  if negb (AppMode_eqb (modeRef s) m)
  then s |> set_appMode m |> set_modeRef m
  else s.

(** 2. OPEN, 3. PINCH, 4. FIST; [palmX] is [lm[0].x]. *)
Definition modeStep (detectedGesture : GestureType) (palmX : R) (s : AppState)
  : AppState :=
  if GestureType_eqb detectedGesture OPEN_ROTATE then
    let s := s |> set_debugInfo "OPEN HAND: SCATTER & ROTATE"%string
               |> enterMode SCATTER in
    let speed := (palmX - 0.5) * 0.02 in
    set_rotationSpeedRef speed s
  else if GestureType_eqb detectedGesture PINCH_ZOOM then
    s |> set_debugInfo "PINCH: INSPECTING MEMORIES"%string
      |> enterMode SCATTER
      |> set_rotationSpeedRef 0.002
  else if GestureType_eqb detectedGesture FIST then
    s |> set_debugInfo "FIST: HOLDING TREE"%string
      |> enterMode TREE
      |> set_rotationSpeedRef 0.005
  else s.

(** The state machine for a frame on which a hand was classified. *)
Definition onGesture (detectedGesture : GestureType) (palmX : R) (s : AppState)
  : AppState :=
  s |> set_gestureRef detectedGesture
    |> photoStep detectedGesture
    |> modeStep detectedGesture palmX.

(** The branch for a frame without a hand. *)
Definition onNoHand (s : AppState) : AppState :=
  s |> set_gestureRef NONE
    |> set_debugInfo "NO HAND DETECTED"%string
    |> set_rotationSpeedRef 0.005.

(** One turn of [visionLoop].  [None] is the exception [detectGesture]
    raises on a hand with too few landmarks. *)
Definition visionLoop (f : VideoFrame) (s : AppState) : option AppState :=
  if processed s f then
    let s := set_lastVideoTime (currentTime f) s in
    match landmarks f with
    | lm :: _ =>
        detectedGesture <- detectGesture lm ;;
        palm <- nth_error lm 0 ;;
        Some (onGesture detectedGesture (lx palm) s)
    | [] => Some (onNoHand s)
    end
  else Some s.

(** ** The countdown timer *)

Fixpoint replaceAt {A : Type} (i : nat) (a : A) (l : list A) : list A :=
  match l, i with
  | [], _ => []
  | _ :: t, O => a :: t
  | h :: t, S j => h :: replaceAt j a t
  end.

Fixpoint removeAt {A : Type} (i : nat) (l : list A) : list A :=
  match l, i with
  | [], _ => []
  | _ :: t, O => t
  | h :: t, S j => h :: removeAt j t
  end.

(** The callback of the [i]-th live interval, one second after its previous
    run. *)
Definition intervalCallback (i : nat) (env : CaptureEnv) (s : AppState)
  : AppState :=
  match nth_error (intervals s) i with
  | None => s
  | Some count0 =>
      let count := (count0 - 1)%Z in
      if (count >? 0)%Z then
        s |> set_intervals (replaceAt i count (intervals s))
          |> set_countdown (Some count)
      else
        s |> set_intervals (removeAt i (intervals s))
          |> set_countdown None
          |> set_flash true
          |> (fun s => set_particlesRef (capturePhoto env (particlesRef s)) s)
          |> (fun s => set_flashTimeouts (S (flashTimeouts s)) s)
          |> set_showCamera false
          |> set_isCountingDownRef false
          |> set_photoModeDebounceRef 0%Z
  end.

(** [setTimeout(() => setFlash(false), 150)]. *)
Definition flashTimeout (s : AppState) : AppState :=
  match flashTimeouts s with
  | O => s
  | S n => s |> set_flashTimeouts n |> set_flash false
  end.

(** ** Animation step: [animate] *)

Section Animation.

(** [mesh.lookAt(target)] of three.js: the Euler angles the mesh has after
    the call, from the mesh, the yaw of its parent group and the target. *)
Variable lookAt : Object3D -> R -> Vector3 -> Vector3.

(** The first loop of [animate]: the photo whose world position is nearest
    to the camera, as its index in the registry.  [minDist] starts at
    [Infinity], which [None] stands for. *)
Fixpoint findNearestPhoto (yaw : R) (ps : list Particle) (i : nat)
    (nearestPhoto : option nat) (minDist : option R) : option nat :=
  match ps with
  | [] => nearestPhoto
  | p :: rest =>
      if ParticleType_eqb (type p) PHOTO then
        let worldPos := getWorldPosition yaw (mesh p) in
        let dist := distanceTo worldPos cameraPosition in
        let closer :=
          match minDist with
          | None => true
          | Some m => Rltb dist m
          end in
        if closer
        then findNearestPhoto yaw rest (S i) (Some i) (Some dist)
        else findNearestPhoto yaw rest (S i) nearestPhoto minDist
      else findNearestPhoto yaw rest (S i) nearestPhoto minDist
  end.

Definition isNearest (nearestPhoto : option nat) (i : nat) : bool :=
  match nearestPhoto with
  | Some j => Nat.eqb i j
  | None => false
  end.

Definition scaleToOriginal (p : Particle) (m : Object3D) : Object3D :=
  let k := originalScaleOr1 p in
  set_scale (lerp (scale m) (mkVector3 k k k) 0.1) m.

Definition addRotation (dx dy dz : R) (m : Object3D) : Object3D :=
  let r := rotation m in
  set_rotation (mkVector3 (vx r + dx) (vy r + dy) (vz r + dz)) m.

(** Pinch: the selected photo is pulled in front of the camera. *)
Definition focusBehaviour (yaw : R) (p : Particle) : Vector3 * Particle :=
  let targetScale := 6.0 in
  let m := mesh p in
  let m := set_rotation (lookAt m yaw cameraPosition) m in
  let m := set_scale
             (lerp (scale m) (mkVector3 targetScale targetScale targetScale) 0.1)
             m in
  (mkVector3 0 5 55, set_mesh m p).

(** Tree mode. *)
Definition treeBehaviour (time : R) (p : Particle) : Vector3 * Particle :=
  let m := mesh p in
  let m :=
    if ParticleType_eqb (type p) LIGHT
    then set_scale (setScalar ((1 + sin (time * 6 + vx (treePos p)) * 0.4) * 1.2)) m
    else m in
  let m :=
    if ParticleType_eqb (type p) SNOWFLAKE then addRotation 0 0 0.01 m else m in
  let m :=
    if ParticleType_eqb (type p) PHOTO
    then scaleToOriginal p (addRotation 0 (vy (rotationSpeed p) * 0.5) 0 m)
    else addRotation 0 (vy (rotationSpeed p) * 0.5) 0 m in
  (treePos p, set_mesh m p).

(** Scatter mode, and the background behaviour during a pinch. *)
Definition scatterBehaviour (p : Particle) : Vector3 * Particle :=
  let p := set_scatterPos (add (scatterPos p) (velocity p)) p in
  let p :=
    if Rgtb (vlength (scatterPos p)) SCATTER_RADIUS
    then set_velocity (negate (velocity p)) p
    else p in
  let m := mesh p in
  let m := addRotation (vx (rotationSpeed p)) 0 0 m in
  let m := addRotation 0 (vy (rotationSpeed p)) 0 m in
  let m := if ParticleType_eqb (type p) PHOTO then scaleToOriginal p m else m in
  (scatterPos p, set_mesh m p).

(** The target the body of the second loop computes for particle [i], with
    the particle as the branch leaves it. *)
Definition behaviour (yaw time : R) (currentMode : AppMode)
    (currentGesture : GestureType) (nearestPhoto : option nat)
    (i : nat) (p : Particle) : Vector3 * Particle :=
  let isFocusing :=
    GestureType_eqb currentGesture PINCH_ZOOM && isNearest nearestPhoto i
    && ParticleType_eqb (type p) PHOTO in
  if isFocusing then focusBehaviour yaw p
  else if AppMode_eqb currentMode TREE
          && negb (GestureType_eqb currentGesture PINCH_ZOOM)
  then treeBehaviour time p
  else scatterBehaviour p.

(** The body of [particlesRef.current.forEach(p => ...)]. *)
Definition animateParticle (yaw time : R) (currentMode : AppMode)
    (currentGesture : GestureType) (nearestPhoto : option nat)
    (i : nat) (p : Particle) : Particle :=
  let '(target, p) :=
    behaviour yaw time currentMode currentGesture nearestPhoto i p in
  set_mesh (set_position (lerp (position (mesh p)) target LERP_SPEED) (mesh p)) p.

Fixpoint forEachIndexed {A : Type} (f : nat -> A -> A) (i : nat) (l : list A)
  : list A :=
  match l with
  | [] => []
  | a :: rest => f i a :: forEachIndexed f (S i) rest
  end.

(** One render tick.  The star topper and the dust are not in the registry
    and are left out. *)
Definition animate (time : R) (s : AppState) : AppState :=
  let currentMode := modeRef s in
  let currentGesture := gestureRef s in
  let s := set_rotationOffsetRef (rotationOffsetRef s + rotationSpeedRef s) s in
  let s := set_mainGroupRotationY (rotationOffsetRef s) s in
  let yaw := mainGroupRotationY s in
  let nearestPhoto :=
    if GestureType_eqb currentGesture PINCH_ZOOM
    then findNearestPhoto yaw (particlesRef s) 0 None None
    else None in
  set_particlesRef
    (forEachIndexed
       (animateParticle yaw time currentMode currentGesture nearestPhoto)
       0 (particlesRef s))
    s.

(** ** The event loop *)

(** What the single-threaded event loop can run next: a turn of
    [visionLoop], the callback of a live interval, a pending flash timeout,
    or a render tick. *)
Inductive Event :=
  | VideoEvent (f : VideoFrame)
  | IntervalEvent (i : nat) (env : CaptureEnv)
  | FlashEvent
  | RenderEvent (time : R).

Definition step (s : AppState) (e : Event) : option AppState :=
  match e with
  | VideoEvent f => visionLoop f s
  | IntervalEvent i env => Some (intervalCallback i env s)
  | FlashEvent => Some (flashTimeout s)
  | RenderEvent time => Some (animate time s)
  end.

Fixpoint run (s : AppState) (es : list Event) : option AppState :=
  match es with
  | [] => Some s
  | e :: rest => s' <- step s e ;; run s' rest
  end.

(** The events of a run, each with the state it found; the run stops at an
    exception. *)
Fixpoint history (s : AppState) (es : list Event) : list (AppState * Event) :=
  match es with
  | [] => []
  | e :: rest =>
      (s, e) :: match step s e with
                | Some s' => history s' rest
                | None => []
                end
  end.

(** A classified frame is a processed frame with a hand, on which the
    classifier gave a label.  For such an event: whether a countdown was
    running when the frame arrived, and the label.  Every other event gives
    [None], a processed frame without a hand among them: the classified
    frames of a history leave those out. *)
Definition classifiedFrame (se : AppState * Event) : option (bool * GestureType) :=
  match snd se with
  | VideoEvent f =>
      if processed (fst se) f then
        match landmarks f with
        | lm :: _ =>
            match detectGesture lm with
            | Some g => Some (isCountingDownRef (fst se), g)
            | None => None
            end
        | [] => None
        end
      else None
  | _ => None
  end.

Fixpoint classifiedFrames (h : list (AppState * Event))
  : list (bool * GestureType) :=
  match h with
  | [] => []
  | se :: rest =>
      match classifiedFrame se with
      | Some c => c :: classifiedFrames rest
      | None => classifiedFrames rest
      end
  end.

(** The live intervals agree with the photo sub-state: none while idle, one
    with 1 to 3 seconds left while counting down. *)
Definition timerConsistent (s : AppState) : Prop :=
  if isCountingDownRef s
  then exists count, intervals s = [count] /\ (1 <= count <= 3)%Z
  else intervals s = [].

(** The state when the loops start: the initial values of the refs, with
    the particles of the tree in the registry and [setupVision] having set
    the mode to [TREE]. *)
Definition initialState (particles : list Particle) : AppState :=
  mkAppState TREE NONE 0 0.005 false 0%Z particles TREE EmptyString None
             false false (-1) 0 [] 0%nat.

End Animation.


(** ** Sample inputs *)

(** A hand of 21 landmarks from its wrist and five finger tips; the other
    joints sit on the wrist. *)
Definition hand (wrist thumbTip indexTip midTip ringTip pinkyTip : NormalizedLandmark)
  : list NormalizedLandmark :=
  [ wrist; wrist; wrist; wrist; thumbTip;
    wrist; wrist; wrist; indexTip;
    wrist; wrist; wrist; midTip;
    wrist; wrist; wrist; ringTip;
    wrist; wrist; wrist; pinkyTip ].

Definition pt (x y : R) : NormalizedLandmark := mkLandmark x y 0.

(** Thumb tip at (0.50, 0.50) and index tip at (0.52, 0.50). *)
Definition pinchHand : list NormalizedLandmark :=
  hand (pt 0.5 0.9) (pt 0.5 0.5) (pt 0.52 0.5) (pt 0.5 0.9) (pt 0.5 0.9) (pt 0.5 0.9).

(** Wrist at (0.5, 0.5), index tip at (0.5, 0.1), the other three tips
    within 0.1 of the wrist, thumb tip at (0.5, 0.75). *)
Definition lShapeHand : list NormalizedLandmark :=
  hand (pt 0.5 0.5) (pt 0.5 0.75) (pt 0.5 0.1) (pt 0.5 0.45) (pt 0.5 0.45) (pt 0.5 0.45).

Definition fistHand : list NormalizedLandmark :=
  hand (pt 0.5 0.5) (pt 0.5 0.6) (pt 0.5 0.4) (pt 0.5 0.4) (pt 0.5 0.4) (pt 0.5 0.4).

(** An open hand whose wrist is at the horizontal position [x]. *)
Definition openHand (x : R) : list NormalizedLandmark :=
  hand (pt x 0.5) (pt x 0.75) (pt x 0.1) (pt x 0.1) (pt x 0.1) (pt x 0.1).

(** A half-open hand: every tip 0.3 from the wrist. *)
Definition relaxedHand : list NormalizedLandmark :=
  hand (pt 0.5 0.5) (pt 0.5 0.8) (pt 0.5 0.2) (pt 0.5 0.2) (pt 0.5 0.2) (pt 0.5 0.2).

(** [lShapeHand] seen at another depth. *)
Definition lShapeHandDeep : list NormalizedLandmark :=
  map (fun l => mkLandmark (lx l) (ly l) (lz l - 1)) lShapeHand.

(** Video frames carrying the sample hands, at playback time [t]. *)
Definition handFrame (lm : list NormalizedLandmark) (t : R) : VideoFrame :=
  mkVideoFrame 4 t [lm].

Definition noHandFrame (t : R) : VideoFrame := mkVideoFrame 4 t [].

(** A stand-in for [lookAt] in closed examples: it leaves the angles of the
    mesh as they are. *)
Definition lookAtStub (m : Object3D) (yaw : R) (target : Vector3) : Vector3 :=
  rotation m.

(** A capture environment with the video element present, and one with
    [videoRef.current] null. *)
Definition photoEnv : CaptureEnv :=
  mkCaptureEnv (Some (mkVideo 640 480)) true (0.25, 0.25, 0) 0.5
               (mkVector3 1 0 0) (mkVector3 0 1 0) (mkVector3 0.5 0.5 0.5).


(** The third scenario of the specification: eleven L-shape frames, then a
    frame without a hand, then the three callbacks of the interval. *)
Definition photoScenario : list Event :=
  [ VideoEvent (handFrame lShapeHand 0); VideoEvent (handFrame lShapeHand 1);
    VideoEvent (handFrame lShapeHand 2); VideoEvent (handFrame lShapeHand 3);
    VideoEvent (handFrame lShapeHand 4); VideoEvent (handFrame lShapeHand 5);
    VideoEvent (handFrame lShapeHand 6); VideoEvent (handFrame lShapeHand 7);
    VideoEvent (handFrame lShapeHand 8); VideoEvent (handFrame lShapeHand 9);
    VideoEvent (handFrame lShapeHand 10); VideoEvent (noHandFrame 11);
    IntervalEvent 0 photoEnv; IntervalEvent 0 photoEnv; IntervalEvent 0 photoEnv ].

(** An ornament that is about to cross the scatter boundary along the x
    axis, with its mesh at the origin and its place in the tree at
    (3, 4, 0). *)
Definition boundaryParticle : Particle :=
  mkParticle (mkObject3D zero3 zero3 (setScalar 1)) ORNAMENT
             (mkVector3 3 4 0) (mkVector3 69.95 0 0) (mkVector3 0.08 0 0)
             (mkVector3 0.01 0.02 0.03) None None.

(** * Properties *)

(** ** Booleans of comparisons *)

Lemma Rltb_true (a b : R) : Rltb a b = true <-> a < b.
Proof. unfold Rltb; destruct (Rlt_dec a b); split; intros; auto; discriminate. Qed.

Lemma Rltb_false (a b : R) : Rltb a b = false <-> ~ a < b.
Proof.
  unfold Rltb; destruct (Rlt_dec a b); split; intros; auto;
    [discriminate | contradiction].
Qed.

Lemma Rgtb_true (a b : R) : Rgtb a b = true <-> a > b.
Proof. unfold Rgtb; apply Rltb_true. Qed.

Lemma Rgtb_false (a b : R) : Rgtb a b = false <-> ~ a > b.
Proof. unfold Rgtb; apply Rltb_false. Qed.

Lemma Reqb_true (a b : R) : Reqb a b = true <-> a = b.
Proof. unfold Reqb; destruct (Req_dec_T a b); split; intros; auto; discriminate. Qed.

Lemma Reqb_false (a b : R) : Reqb a b = false <-> a <> b.
Proof.
  unfold Reqb; destruct (Req_dec_T a b); split; intros; auto;
    [discriminate | contradiction].
Qed.

Lemma GestureType_eqb_eq (a b : GestureType) :
  GestureType_eqb a b = true <-> a = b.
Proof. destruct a, b; simpl; split; intros; congruence. Qed.

Lemma GestureType_eqb_neq (a b : GestureType) :
  GestureType_eqb a b = false <-> a <> b.
Proof. destruct a, b; simpl; split; intros; congruence. Qed.

Lemma AppMode_eqb_eq (a b : AppMode) : AppMode_eqb a b = true <-> a = b.
Proof. destruct a, b; simpl; split; intros; congruence. Qed.

Lemma ParticleType_eqb_eq (a b : ParticleType) :
  ParticleType_eqb a b = true <-> a = b.
Proof. destruct a, b; simpl; split; intros; congruence. Qed.

(** Rewrites a comparison whose outcome is among the hypotheses. *)
Ltac decide_cmp :=
  repeat match goal with
  | H : ?a < ?b |- context [Rltb ?a ?b] =>
      rewrite (proj2 (Rltb_true a b) H)
  | H : ~ ?a < ?b |- context [Rltb ?a ?b] =>
      rewrite (proj2 (Rltb_false a b) H)
  | H : ?a > ?b |- context [Rgtb ?a ?b] =>
      rewrite (proj2 (Rgtb_true a b) H)
  | H : ~ ?a > ?b |- context [Rgtb ?a ?b] =>
      rewrite (proj2 (Rgtb_false a b) H)
  end.

(** ** The classifier *)

Lemma nth_error_landmark (lm : list NormalizedLandmark) (k : nat) :
  (k < length lm)%nat -> nth_error lm k = Some (landmark lm k).
Proof. intros H. unfold landmark. apply nth_error_nth'. exact H. Qed.

Lemma d_dist2D (a b : NormalizedLandmark) :
  d (Some a) (Some b) = Some (dist2D a b).
Proof. reflexivity. Qed.

(** On a hand of 21 landmarks the classifier reads the six landmarks it
    needs and compares the distances of the image plane. *)
Lemma detectGesture_21 (lm : list NormalizedLandmark) :
  length lm = 21%nat ->
  let wrist := landmark lm 0 in
  let thumbTip := landmark lm 4 in
  let indexTip := landmark lm 8 in
  let midTip := landmark lm 12 in
  let ringTip := landmark lm 16 in
  let pinkyTip := landmark lm 20 in
  let avgDist :=
    (0 + dist2D indexTip wrist + dist2D midTip wrist + dist2D ringTip wrist
     + dist2D pinkyTip wrist) / 4 in
  let fistOrOpen :=
    if Rltb avgDist 0.25 then FIST
    else if Rgtb avgDist 0.35 then OPEN_ROTATE else NONE in
  detectGesture lm =
  Some (if Rltb (dist2D thumbTip indexTip) 0.05 then PINCH_ZOOM
        else if Rgtb (dist2D indexTip wrist) 0.3
                && Rltb (dist2D midTip wrist) 0.25
                && Rltb (dist2D ringTip wrist) 0.25
                && Rltb (dist2D pinkyTip wrist) 0.25
        then if Rgtb (dist2D thumbTip wrist) 0.2 then L_SHAPE_PHOTO
             else fistOrOpen
        else fistOrOpen).
Proof.
  intros Hlen. cbv zeta. unfold detectGesture.
  rewrite !nth_error_landmark by lia.
  cbn [sumTipDist bind]. rewrite !d_dist2D. cbn [bind].
  repeat match goal with |- context [if ?c then _ else _] =>
    destruct c end; reflexivity.
Qed.

(** C1. On every hand of 21 landmarks the classifier checks its rules in
    order and the first that matches decides: a thumb-tip to index-tip
    distance below 0.05 gives PINCH_ZOOM; otherwise an index tip farther
    than 0.3 from the wrist with middle, ring and pinky tips nearer than
    0.25 and the thumb tip farther than 0.2 gives L_SHAPE_PHOTO; otherwise
    the average [a] of the four non-thumb tip-to-wrist distances gives FIST
    when [a < 0.25], OPEN_ROTATE when [a > 0.35] and NONE in between. *)
Theorem detectGesture_precedence (lm : list NormalizedLandmark) :
  length lm = 21%nat ->
  let wrist := landmark lm 0 in
  let thumbTip := landmark lm 4 in
  let indexTip := landmark lm 8 in
  let midTip := landmark lm 12 in
  let ringTip := landmark lm 16 in
  let pinkyTip := landmark lm 20 in
  let pinch := dist2D thumbTip indexTip < 0.05 in
  let lShape :=
    dist2D indexTip wrist > 0.3 /\ dist2D midTip wrist < 0.25 /\
    dist2D ringTip wrist < 0.25 /\ dist2D pinkyTip wrist < 0.25 /\
    dist2D thumbTip wrist > 0.2 in
  let a :=
    (dist2D indexTip wrist + dist2D midTip wrist + dist2D ringTip wrist
     + dist2D pinkyTip wrist) / 4 in
  (pinch -> detectGesture lm = Some PINCH_ZOOM) /\
  (~ pinch -> lShape -> detectGesture lm = Some L_SHAPE_PHOTO) /\
  (~ pinch -> ~ lShape -> a < 0.25 -> detectGesture lm = Some FIST) /\
  (~ pinch -> ~ lShape -> a > 0.35 -> detectGesture lm = Some OPEN_ROTATE) /\
  (~ pinch -> ~ lShape -> 0.25 <= a <= 0.35 -> detectGesture lm = Some NONE).
Proof.
  intros Hlen. cbv zeta. rewrite (detectGesture_21 lm Hlen). cbv zeta.
  set (dp := dist2D (landmark lm 4) (landmark lm 8)).
  set (di := dist2D (landmark lm 8) (landmark lm 0)).
  set (dm := dist2D (landmark lm 12) (landmark lm 0)).
  set (dr := dist2D (landmark lm 16) (landmark lm 0)).
  set (dk := dist2D (landmark lm 20) (landmark lm 0)).
  set (dt := dist2D (landmark lm 4) (landmark lm 0)).
  replace ((0 + di + dm + dr + dk) / 4) with ((di + dm + dr + dk) / 4) by lra.
  set (a := (di + dm + dr + dk) / 4).
  assert (Hrule2 :
    (Rgtb di 0.3 && Rltb dm 0.25 && Rltb dr 0.25 && Rltb dk 0.25 = true
     /\ Rgtb dt 0.2 = true)
    <-> (di > 0.3 /\ dm < 0.25 /\ dr < 0.25 /\ dk < 0.25 /\ dt > 0.2)).
  { rewrite !andb_true_iff, !Rgtb_true, !Rltb_true. tauto. }
  assert (Hfall : forall g : GestureType,
    ~ (di > 0.3 /\ dm < 0.25 /\ dr < 0.25 /\ dk < 0.25 /\ dt > 0.2) ->
    (if Rgtb di 0.3 && Rltb dm 0.25 && Rltb dr 0.25 && Rltb dk 0.25
     then if Rgtb dt 0.2 then L_SHAPE_PHOTO else g
     else g) = g).
  { intros g Hn.
    destruct (Rgtb di 0.3 && Rltb dm 0.25 && Rltb dr 0.25 && Rltb dk 0.25)
      eqn:E1; [| reflexivity].
    destruct (Rgtb dt 0.2) eqn:E2; [| reflexivity].
    exfalso. apply Hn, Hrule2. split; reflexivity. }
  repeat split.
  - intros Hp. decide_cmp. reflexivity.
  - intros Hp Hl. decide_cmp.
    apply Hrule2 in Hl. destruct Hl as [E1 E2]. rewrite E1, E2. reflexivity.
  - intros Hp Hl Ha. decide_cmp. rewrite (Hfall _ Hl). reflexivity.
  - intros Hp Hl Ha. decide_cmp. rewrite (Hfall _ Hl).
    assert (Hna : ~ a < 0.25) by lra. decide_cmp. reflexivity.
  - intros Hp Hl [Ha1 Ha2]. decide_cmp. rewrite (Hfall _ Hl).
    assert (Hna : ~ a < 0.25) by lra. assert (Hnb : ~ a > 0.35) by lra.
    decide_cmp. reflexivity.
Qed.

(** *** The classifier on the sample hands *)

Lemma dist2D_vertical (a b : NormalizedLandmark) :
  lx a = lx b -> dist2D a b = Rabs (ly a - ly b).
Proof.
  intros H. unfold dist2D. rewrite H.
  replace ((lx b - lx b) * (lx b - lx b) + (ly a - ly b) * (ly a - ly b))
    with (Rsqr (ly a - ly b)) by (unfold Rsqr; ring).
  apply sqrt_Rsqr_abs.
Qed.

Lemma dist2D_horizontal (a b : NormalizedLandmark) :
  ly a = ly b -> dist2D a b = Rabs (lx a - lx b).
Proof.
  intros H. unfold dist2D. rewrite H.
  replace ((lx a - lx b) * (lx a - lx b) + (ly b - ly b) * (ly b - ly b))
    with (Rsqr (lx a - lx b)) by (unfold Rsqr; ring).
  apply sqrt_Rsqr_abs.
Qed.

(** Settles a comparison of concrete numbers and absolute values. *)
Ltac abs_lra := unfold Rabs; repeat destruct (Rcase_abs _); lra.

Ltac eval_cmp :=
  repeat match goal with
  | |- context [Rltb ?a ?b] =>
      first [ rewrite (proj2 (Rltb_true a b)) by abs_lra
            | rewrite (proj2 (Rltb_false a b)) by abs_lra ]
  | |- context [Rgtb ?a ?b] =>
      first [ rewrite (proj2 (Rgtb_true a b)) by abs_lra
            | rewrite (proj2 (Rgtb_false a b)) by abs_lra ]
  | |- context [Reqb ?a ?b] =>
      first [ rewrite (proj2 (Reqb_true a b)) by abs_lra
            | rewrite (proj2 (Reqb_false a b)) by abs_lra ]
  end.

(** Evaluates [detectGesture] on a hand built with [hand] whose points lie
    on a vertical line. *)
Ltac eval_vertical_hand :=
  rewrite detectGesture_21 by reflexivity;
  cbv zeta; cbn [landmark hand nth];
  rewrite !dist2D_vertical by reflexivity;
  cbn [ly pt]; eval_cmp; cbn [andb]; try reflexivity.

Lemma pinchHand_distance :
  dist2D (landmark pinchHand 4) (landmark pinchHand 8) < 0.05.
Proof.
  unfold pinchHand. cbn [landmark hand nth].
  rewrite dist2D_horizontal by reflexivity. cbn [lx pt]. abs_lra.
Qed.

Example detectGesture_lShapeHand : detectGesture lShapeHand = Some L_SHAPE_PHOTO.
Proof. unfold lShapeHand. eval_vertical_hand. Qed.

Example detectGesture_fistHand : detectGesture fistHand = Some FIST.
Proof. unfold fistHand. eval_vertical_hand. Qed.

Example detectGesture_openHand (x : R) : detectGesture (openHand x) = Some OPEN_ROTATE.
Proof. unfold openHand. eval_vertical_hand. Qed.

Example detectGesture_relaxedHand : detectGesture relaxedHand = Some NONE.
Proof. unfold relaxedHand. eval_vertical_hand. Qed.

Example detectGesture_pinchHand : detectGesture pinchHand = Some PINCH_ZOOM.
Proof.
  rewrite detectGesture_21 by reflexivity. cbv zeta.
  rewrite (proj2 (Rltb_true _ _) pinchHand_distance). reflexivity.
Qed.

(** The first scenario of the specification: thumb tip at (0.50, 0.50),
    index tip at (0.52, 0.50). *)
Lemma detectGesture_precedence_witness :
  length pinchHand = 21%nat /\ detectGesture pinchHand = Some PINCH_ZOOM.
Proof.
  split; [reflexivity |].
  exact (proj1 (detectGesture_precedence pinchHand eq_refl) pinchHand_distance).
Defined.

(** *** Depth *)

(** The image-plane coordinates of a landmark. *)
Definition xy (l : NormalizedLandmark) : R * R := (lx l, ly l).

Lemma d_xy (a b a' b' : option NormalizedLandmark) :
  option_map xy a = option_map xy a' ->
  option_map xy b = option_map xy b' ->
  d a b = d a' b'.
Proof.
  destruct a as [a|], a' as [a'|], b as [b|], b' as [b'|];
    simpl; intros Ha Hb; try discriminate; try reflexivity.
  unfold xy in Ha, Hb. injection Ha as Hax Hay. injection Hb as Hbx Hby.
  rewrite Hax, Hay, Hbx, Hby. reflexivity.
Qed.

Lemma nth_error_xy (lm lm' : list NormalizedLandmark) (k : nat) :
  map xy lm = map xy lm' ->
  option_map xy (nth_error lm k) = option_map xy (nth_error lm' k).
Proof.
  intros H. rewrite <- !nth_error_map. rewrite H. reflexivity.
Qed.

(** C9. The label depends on the x and y coordinates of the landmarks only:
    two hands that agree on every x and y, whatever their depths, get the
    same answer from the classifier. *)
Theorem detectGesture_depth_independent (lm lm' : list NormalizedLandmark) :
  map xy lm = map xy lm' ->
  detectGesture lm = detectGesture lm'.
Proof.
  intros H.
  assert (Hd : forall i j,
    d (nth_error lm i) (nth_error lm j) = d (nth_error lm' i) (nth_error lm' j)).
  { intros i j. apply d_xy; apply nth_error_xy; exact H. }
  unfold detectGesture. cbn [sumTipDist]. rewrite !Hd. reflexivity.
Qed.

Lemma lShapeHandDeep_depth :
  map lz lShapeHandDeep <> map lz lShapeHand.
Proof.
  unfold lShapeHandDeep, lShapeHand, hand. cbn [map lz pt].
  intros H. injection H as H0. lra.
Qed.

Lemma detectGesture_depth_independent_witness :
  map xy lShapeHandDeep = map xy lShapeHand /\
  detectGesture lShapeHandDeep = detectGesture lShapeHand.
Proof.
  split; [reflexivity |].
  apply (detectGesture_depth_independent lShapeHandDeep lShapeHand).
  reflexivity.
Defined.

(** ** The interaction state machine *)

Lemma detectGesture_wrist (lm : list NormalizedLandmark) (g : GestureType) :
  detectGesture lm = Some g -> nth_error lm 0 = Some (landmark lm 0).
Proof.
  destruct lm as [| w rest]; [| reflexivity].
  unfold detectGesture. cbn. discriminate.
Qed.

(** The three ways a turn of [visionLoop] can go. *)
Lemma visionLoop_skipped (f : VideoFrame) (s : AppState) :
  processed s f = false -> visionLoop f s = Some s.
Proof. intros H. unfold visionLoop. rewrite H. reflexivity. Qed.

Lemma visionLoop_noHand (f : VideoFrame) (s : AppState) :
  processed s f = true -> landmarks f = [] ->
  visionLoop f s = Some (onNoHand (set_lastVideoTime (currentTime f) s)).
Proof. intros H L. unfold visionLoop. rewrite H, L. reflexivity. Qed.

Lemma visionLoop_classified (f : VideoFrame) (s : AppState)
    (lm : list NormalizedLandmark) (rest : list (list NormalizedLandmark))
    (g : GestureType) :
  processed s f = true -> landmarks f = lm :: rest ->
  detectGesture lm = Some g ->
  visionLoop f s =
  Some (onGesture g (lx (landmark lm 0)) (set_lastVideoTime (currentTime f) s)).
Proof.
  intros H L G. unfold visionLoop. rewrite H, L, G.
  cbn [bind]. rewrite (detectGesture_wrist lm g G). reflexivity.
Qed.

(** Unfolds the state machine and splits on every test it makes. *)
Ltac machine :=
  unfold onGesture, onNoHand, photoStep, modeStep, enterMode, startCountdown;
  cbn;
  repeat match goal with
  | |- context [if ?c then _ else _] => destruct c eqn:?; cbn
  end;
  try reflexivity; try discriminate; try lia.

(** C10. On every processed frame classified L_SHAPE_PHOTO the state
    machine leaves the mode as it is and sets the rotation speed to 0.005,
    whatever the debounce count is and whether or not a countdown runs. *)
Theorem lShape_frame_effect (f : VideoFrame) (s : AppState)
    (lm : list NormalizedLandmark) (rest : list (list NormalizedLandmark)) :
  processed s f = true ->
  landmarks f = lm :: rest ->
  detectGesture lm = Some L_SHAPE_PHOTO ->
  exists s',
    visionLoop f s = Some s' /\
    modeRef s' = modeRef s /\ appMode s' = appMode s /\
    rotationSpeedRef s' = 0.005.
Proof.
  intros H L G. rewrite (visionLoop_classified f s lm rest _ H L G).
  eexists. split; [reflexivity |].
  repeat split; machine.
Qed.

Lemma processed_fresh (s : AppState) (f : VideoFrame) :
  (2 <= readyState f)%Z -> currentTime f <> lastVideoTime s ->
  processed s f = true.
Proof.
  intros Hr Ht. unfold processed.
  rewrite (proj2 (Reqb_false _ _) Ht).
  replace (readyState f >=? 2)%Z with true; [reflexivity |].
  symmetry. apply Z.geb_le. exact Hr.
Qed.

Lemma visionLoop_handFrame (lm : list NormalizedLandmark) (g : GestureType)
    (t : R) (s : AppState) :
  detectGesture lm = Some g -> t <> lastVideoTime s ->
  visionLoop (handFrame lm t) s =
  Some (onGesture g (lx (landmark lm 0)) (set_lastVideoTime t s)).
Proof.
  intros G Ht.
  apply (visionLoop_classified (handFrame lm t) s lm []); auto.
  apply processed_fresh; [cbn; lia | exact Ht].
Qed.

Lemma visionLoop_noHandFrame (t : R) (s : AppState) :
  t <> lastVideoTime s ->
  visionLoop (noHandFrame t) s = Some (onNoHand (set_lastVideoTime t s)).
Proof.
  intros Ht. apply visionLoop_noHand; [| reflexivity].
  apply processed_fresh; [cbn; lia | exact Ht].
Qed.

(** Evaluates the program on a closed state and leaves the arithmetic of
    the reals as it is. *)
Ltac reduce_state :=
  lazy -[Rplus Rminus Rmult Rdiv Ropp Rinv IZR sqrt cos sin Rpower PI Rabs
         Rlt_dec Req_dec_T Reqb Rltb Rgtb].

Ltac reduce_state_in H :=
  lazy -[Rplus Rminus Rmult Rdiv Ropp Rinv IZR sqrt cos sin Rpower PI Rabs
         Rlt_dec Req_dec_T Reqb Rltb Rgtb] in H.

Ltac fresh_time := reduce_state; lra.

(** Runs a closed trace of video events on the sample hands. *)
Ltac run_video :=
  cbn [run step bind];
  repeat progress first
    [ progress cbn [run step bind]
    | rewrite (visionLoop_handFrame lShapeHand L_SHAPE_PHOTO)
        by (first [exact detectGesture_lShapeHand | fresh_time])
    | rewrite (visionLoop_handFrame fistHand FIST)
        by (first [exact detectGesture_fistHand | fresh_time])
    | rewrite (visionLoop_handFrame relaxedHand NONE)
        by (first [exact detectGesture_relaxedHand | fresh_time])
    | rewrite (visionLoop_handFrame pinchHand PINCH_ZOOM)
        by (first [exact detectGesture_pinchHand | fresh_time])
    | rewrite (visionLoop_handFrame (openHand _) OPEN_ROTATE)
        by (first [apply detectGesture_openHand | fresh_time])
    | rewrite visionLoop_noHandFrame by fresh_time ];
  cbn [run step bind].

Lemma lShape_frame_effect_witness :
  let s := startCountdown (initialState []) in
  let f := handFrame lShapeHand 0 in
  isCountingDownRef s = true /\
  exists s',
    visionLoop f s = Some s' /\
    modeRef s' = modeRef s /\ appMode s' = appMode s /\
    rotationSpeedRef s' = 0.005.
Proof.
  split; [reflexivity |].
  apply (lShape_frame_effect (handFrame lShapeHand 0)
           (startCountdown (initialState [])) lShapeHand []).
  - apply processed_fresh; [cbn; lia | cbn; lra].
  - reflexivity.
  - exact detectGesture_lShapeHand.
Defined.

(** *** Frames without a command *)

(** What the no-hand branch leaves alone. *)
Lemma onNoHand_debounce (s : AppState) :
  photoModeDebounceRef (onNoHand s) = photoModeDebounceRef s.
Proof. reflexivity. Qed.

(** What a frame classified NONE leaves alone. *)
Lemma onGesture_NONE_speed (palmX : R) (s : AppState) :
  rotationSpeedRef (onGesture NONE palmX s) = rotationSpeedRef s.
Proof. reflexivity. Qed.




(** *** The photo sub-state *)

Lemma onGesture_other (g : GestureType) (palmX : R) (s : AppState) :
  g <> L_SHAPE_PHOTO ->
  photoModeDebounceRef (onGesture g palmX s) = 0%Z /\
  isCountingDownRef (onGesture g palmX s) = isCountingDownRef s /\
  intervals (onGesture g palmX s) = intervals s /\
  countdown (onGesture g palmX s) = countdown s /\
  particlesRef (onGesture g palmX s) = particlesRef s.
Proof. intros Hg. destruct g; try congruence; repeat split; machine. Qed.

Lemma onGesture_lShape_counting (palmX : R) (s : AppState) :
  isCountingDownRef s = true ->
  photoModeDebounceRef (onGesture L_SHAPE_PHOTO palmX s) = photoModeDebounceRef s /\
  isCountingDownRef (onGesture L_SHAPE_PHOTO palmX s) = true /\
  intervals (onGesture L_SHAPE_PHOTO palmX s) = intervals s /\
  countdown (onGesture L_SHAPE_PHOTO palmX s) = countdown s /\
  particlesRef (onGesture L_SHAPE_PHOTO palmX s) = particlesRef s.
Proof.
  intros Hc. unfold onGesture, photoStep, modeStep. cbn. rewrite Hc. cbn.
  repeat split; assumption.
Qed.

Lemma onGesture_lShape_idle (palmX : R) (s : AppState) :
  isCountingDownRef s = false ->
  let s' := onGesture L_SHAPE_PHOTO palmX s in
  photoModeDebounceRef s' = (photoModeDebounceRef s + 1)%Z /\
  particlesRef s' = particlesRef s /\
  if (photoModeDebounceRef s + 1 >? 10)%Z
  then isCountingDownRef s' = true /\ intervals s' = intervals s ++ [3%Z] /\
       countdown s' = Some 3%Z
  else isCountingDownRef s' = false /\ intervals s' = intervals s /\
       countdown s' = countdown s.
Proof.
  intros Hc. unfold onGesture, photoStep, modeStep. cbn. rewrite Hc. cbn.
  destruct (photoModeDebounceRef s + 1 >? 10)%Z; cbn; repeat split; assumption.
Qed.

Lemma onNoHand_photo (s : AppState) :
  photoModeDebounceRef (onNoHand s) = photoModeDebounceRef s /\
  isCountingDownRef (onNoHand s) = isCountingDownRef s /\
  intervals (onNoHand s) = intervals s /\
  particlesRef (onNoHand s) = particlesRef s.
Proof. repeat split. Qed.

Lemma nth_error_singleton {A : Type} (a b : A) (i : nat) :
  nth_error [a] i = Some b -> i = 0%nat /\ a = b.
Proof.
  destruct i as [| [| i]]; cbn; intros H; try discriminate.
  injection H as H. auto.
Qed.

(** What the interval callback does to the photo sub-state when exactly one
    interval is live. *)
Lemma intervalCallback_single (i : nat) (env : CaptureEnv) (s : AppState)
    (count : Z) :
  intervals s = [count] ->
  let s' := intervalCallback i env s in
  (i <> 0%nat -> s' = s) /\
  (i = 0%nat -> (count - 1 > 0)%Z ->
     intervals s' = [(count - 1)%Z] /\ countdown s' = Some (count - 1)%Z /\
     isCountingDownRef s' = isCountingDownRef s /\
     photoModeDebounceRef s' = photoModeDebounceRef s /\
     particlesRef s' = particlesRef s) /\
  (i = 0%nat -> (count - 1 <= 0)%Z ->
     intervals s' = [] /\ countdown s' = None /\
     isCountingDownRef s' = false /\ photoModeDebounceRef s' = 0%Z /\
     particlesRef s' = capturePhoto env (particlesRef s) /\
     flash s' = true /\ showCamera s' = false).
Proof.
  intros Hi. cbv zeta. unfold intervalCallback. rewrite Hi.
  split; [| split].
  - intros Hn. destruct i as [| [| i]]; [congruence | reflexivity | reflexivity].
  - intros -> Hc. cbn. destruct (count - 1 >? 0)%Z eqn:E; [| lia].
    repeat split.
  - intros -> Hc. cbn. destruct (count - 1 >? 0)%Z eqn:E; [lia |].
    repeat split.
Qed.

Lemma intervalCallback_none (i : nat) (env : CaptureEnv) (s : AppState) :
  intervals s = [] -> intervalCallback i env s = s.
Proof.
  intros Hi. unfold intervalCallback. rewrite Hi.
  destruct i; reflexivity.
Qed.

Section EventLoop.

Variable lookAt : Object3D -> R -> Vector3 -> Vector3.

Lemma forEachIndexed_length {A : Type} (f : nat -> A -> A) (l : list A) (i : nat) :
  length (forEachIndexed f i l) = length l.
Proof.
  revert i. induction l as [| a l IH]; intros i; cbn; [reflexivity |].
  rewrite IH. reflexivity.
Qed.

(** A render tick does not touch the photo sub-state and keeps the size of
    the registry. *)
Lemma animate_photo (time : R) (s : AppState) :
  let s' := animate lookAt time s in
  photoModeDebounceRef s' = photoModeDebounceRef s /\
  isCountingDownRef s' = isCountingDownRef s /\
  intervals s' = intervals s /\
  countdown s' = countdown s /\
  length (particlesRef s') = length (particlesRef s).
Proof.
  cbv zeta. unfold animate. cbn. repeat split.
  apply forEachIndexed_length.
Qed.

Lemma flashTimeout_photo (s : AppState) :
  let s' := flashTimeout s in
  photoModeDebounceRef s' = photoModeDebounceRef s /\
  isCountingDownRef s' = isCountingDownRef s /\
  intervals s' = intervals s /\
  countdown s' = countdown s /\
  particlesRef s' = particlesRef s.
Proof.
  cbv zeta. unfold flashTimeout. destruct (flashTimeouts s); repeat split.
Qed.

(** Whatever a turn of [visionLoop] does, it is one of four things. *)
Inductive VisionOutcome (f : VideoFrame) (s : AppState) : option AppState -> Prop :=
  | Skipped :
      processed s f = false -> VisionOutcome f s (Some s)
  | NoHand :
      processed s f = true -> landmarks f = [] ->
      VisionOutcome f s (Some (onNoHand (set_lastVideoTime (currentTime f) s)))
  | Classified lm rest g :
      processed s f = true -> landmarks f = lm :: rest ->
      detectGesture lm = Some g ->
      VisionOutcome f s
        (Some (onGesture g (lx (landmark lm 0))
                 (set_lastVideoTime (currentTime f) s)))
  | Raised lm rest :
      processed s f = true -> landmarks f = lm :: rest ->
      detectGesture lm = None ->
      VisionOutcome f s None.

Lemma visionLoop_outcome (f : VideoFrame) (s : AppState) :
  VisionOutcome f s (visionLoop f s).
Proof.
  destruct (processed s f) eqn:P.
  - destruct (landmarks f) as [| lm rest] eqn:L.
    + rewrite (visionLoop_noHand f s P L). apply NoHand; assumption.
    + destruct (detectGesture lm) as [g |] eqn:G.
      * rewrite (visionLoop_classified f s lm rest g P L G).
        eapply Classified; eassumption.
      * unfold visionLoop. rewrite P, L, G. cbn.
        eapply Raised; eassumption.
  - rewrite (visionLoop_skipped f s P). apply Skipped. exact P.
Qed.

(** The live intervals stay consistent with the photo sub-state. *)
Lemma step_timerConsistent (s s' : AppState) (e : Event) :
  timerConsistent s -> step lookAt s e = Some s' -> timerConsistent s'.
Proof.
  unfold timerConsistent. intros Inv Hstep. destruct e as [f | i env | | time]; cbn in Hstep.
  - destruct (visionLoop_outcome f s) as [P | P L | lm rest g P L G | lm rest P L G];
      try discriminate; injection Hstep as <-.
    + exact Inv.
    + exact Inv.
    + change (isCountingDownRef (set_lastVideoTime (currentTime f) s))
        with (isCountingDownRef s) in *.
      set (s1 := set_lastVideoTime (currentTime f) s).
      assert (Inv1 : if isCountingDownRef s1
                     then exists count, intervals s1 = [count] /\ (1 <= count <= 3)%Z
                     else intervals s1 = []) by exact Inv.
      clearbody s1. clear Inv.
      destruct (GestureType_eqb g L_SHAPE_PHOTO) eqn:E.
      * apply GestureType_eqb_eq in E. subst g.
        destruct (isCountingDownRef s1) eqn:C.
        -- destruct (onGesture_lShape_counting (lx (landmark lm 0)) s1 C)
             as (_ & -> & -> & _). exact Inv1.
        -- destruct (onGesture_lShape_idle (lx (landmark lm 0)) s1 C)
             as (_ & _ & H).
           destruct (photoModeDebounceRef s1 + 1 >? 10)%Z.
           ++ destruct H as (-> & -> & _). rewrite Inv1. cbn.
              exists 3%Z. split; [reflexivity | lia].
           ++ destruct H as (-> & -> & _). exact Inv1.
      * apply GestureType_eqb_neq in E.
        destruct (onGesture_other g (lx (landmark lm 0)) s1 E)
          as (_ & -> & -> & _). exact Inv1.
  - injection Hstep as <-.
    destruct (isCountingDownRef s) eqn:C.
    + destruct Inv as (count & Hi & Hc).
      destruct (intervalCallback_single i env s count Hi) as (Hne & Hpos & Hzero).
      destruct (Nat.eq_dec i 0) as [-> | Hn].
      * destruct (Z_gt_le_dec (count - 1) 0) as [Hg | Hl].
        -- destruct (Hpos eq_refl Hg) as (-> & _ & -> & _). rewrite C.
           exists (count - 1)%Z. split; [reflexivity | lia].
        -- destruct (Hzero eq_refl Hl) as (-> & _ & -> & _). reflexivity.
      * rewrite (Hne Hn), C. exists count. auto.
    + rewrite (intervalCallback_none i env s Inv), C. exact Inv.
  - injection Hstep as <-.
    destruct (flashTimeout_photo s) as (_ & -> & -> & _). exact Inv.
  - injection Hstep as <-.
    destruct (animate_photo time s) as (_ & -> & -> & _). exact Inv.
Qed.

Lemma run_app (s : AppState) (es es' : list Event) :
  run lookAt s (es ++ es') = (s' <- run lookAt s es ;; run lookAt s' es').
Proof.
  revert s. induction es as [| e es IH]; intros s; cbn; [reflexivity |].
  destruct (step lookAt s e); cbn; [apply IH | reflexivity].
Qed.

Lemma run_timerConsistent (s0 s : AppState) (es : list Event) :
  timerConsistent s0 -> run lookAt s0 es = Some s -> timerConsistent s.
Proof.
  revert s0. induction es as [| e es IH]; intros s0 Inv Hrun; cbn in Hrun.
  - injection Hrun as <-. exact Inv.
  - destruct (step lookAt s0 e) as [s1 |] eqn:Hstep; [| discriminate].
    cbn in Hrun. eapply IH; [| exact Hrun].
    eapply step_timerConsistent; eassumption.
Qed.

Lemma history_app (s0 s : AppState) (es : list Event) (e : Event) :
  run lookAt s0 es = Some s ->
  history lookAt s0 (es ++ [e]) = history lookAt s0 es ++ [(s, e)].
Proof.
  revert s0. induction es as [| e0 es IH]; intros s0 Hrun; cbn in Hrun.
  - injection Hrun as <-. cbn. destruct (step lookAt s0 e); reflexivity.
  - cbn. destruct (step lookAt s0 e0) as [s1 |]; [| discriminate].
    cbn in Hrun. rewrite (IH s1 Hrun). reflexivity.
Qed.

Lemma classifiedFrames_app (h h' : list (AppState * Event)) :
  classifiedFrames (h ++ h') = classifiedFrames h ++ classifiedFrames h'.
Proof.
  induction h as [| se h IH]; cbn; [reflexivity |].
  destruct (classifiedFrame se); rewrite IH; reflexivity.
Qed.

(** While idle, the debounce count is a number of L-shape frames that were
    classified in a row, each while idle, at the end of the history. *)
Definition streakOk (s0 : AppState) (es : list Event) (s : AppState) : Prop :=
  isCountingDownRef s = false ->
  (0 <= photoModeDebounceRef s)%Z /\
  exists earlier,
    classifiedFrames (history lookAt s0 es) =
    earlier ++ repeat (false, L_SHAPE_PHOTO) (Z.to_nat (photoModeDebounceRef s)).

Lemma streakOk_unchanged (s0 s s' : AppState) (es : list Event) (e : Event) :
  run lookAt s0 es = Some s ->
  classifiedFrame (s, e) = None ->
  isCountingDownRef s' = isCountingDownRef s ->
  photoModeDebounceRef s' = photoModeDebounceRef s ->
  streakOk s0 es s -> streakOk s0 (es ++ [e]) s'.
Proof.
  intros Hrun Hc Hi Hd Inv. unfold streakOk in *.
  rewrite Hi, Hd, (history_app s0 s es e Hrun), classifiedFrames_app.
  cbn. rewrite Hc, app_nil_r. exact Inv.
Qed.

Lemma streakOk_reset (s0 s' : AppState) (es : list Event) :
  photoModeDebounceRef s' = 0%Z -> streakOk s0 es s'.
Proof.
  intros Hd _. rewrite Hd. split; [lia |].
  exists (classifiedFrames (history lookAt s0 es)). cbn. rewrite app_nil_r.
  reflexivity.
Qed.

Lemma classifiedFrame_video (s : AppState) (f : VideoFrame)
    (lm : list NormalizedLandmark) (rest : list (list NormalizedLandmark))
    (g : GestureType) :
  processed s f = true -> landmarks f = lm :: rest ->
  detectGesture lm = Some g ->
  classifiedFrame (s, VideoEvent f) = Some (isCountingDownRef s, g).
Proof. intros P L G. unfold classifiedFrame. cbn. rewrite P, L, G. reflexivity. Qed.

Lemma streakOk_step (s0 s s' : AppState) (es : list Event) (e : Event) :
  run lookAt s0 es = Some s ->
  timerConsistent s -> streakOk s0 es s ->
  step lookAt s e = Some s' ->
  streakOk s0 (es ++ [e]) s'.
Proof.
  intros Hrun Tc Inv Hstep. destruct e as [f | i env | | time]; cbn in Hstep.
  - destruct (visionLoop_outcome f s) as [P | P L | lm rest g P L G | lm rest P L G];
      try discriminate; injection Hstep as <-.
    + apply (streakOk_unchanged s0 s); auto.
      unfold classifiedFrame. cbn. rewrite P. reflexivity.
    + apply (streakOk_unchanged s0 s); auto.
      unfold classifiedFrame. cbn. rewrite P, L. reflexivity.
    + set (s1 := set_lastVideoTime (currentTime f) s).
      assert (Hc1 : isCountingDownRef s1 = isCountingDownRef s) by reflexivity.
      assert (Hd1 : photoModeDebounceRef s1 = photoModeDebounceRef s) by reflexivity.
      clearbody s1.
      destruct (GestureType_eqb g L_SHAPE_PHOTO) eqn:E.
      * apply GestureType_eqb_eq in E. subst g.
        destruct (isCountingDownRef s) eqn:C.
        -- destruct (onGesture_lShape_counting (lx (landmark lm 0)) s1 Hc1)
             as (_ & Hc' & _).
           intros Hidle. congruence.
        -- destruct (onGesture_lShape_idle (lx (landmark lm 0)) s1 Hc1)
             as (Hd' & _ & H).
           destruct (Inv C) as (Hpos & earlier & Hh).
           intros Hidle. rewrite Hd', Hd1. split; [lia |].
           exists earlier.
           rewrite (history_app s0 s es _ Hrun), classifiedFrames_app, Hh.
           cbn [classifiedFrames].
           rewrite (classifiedFrame_video s f lm rest _ P L G), C.
           replace (Z.to_nat (photoModeDebounceRef s + 1))
             with (Z.to_nat (photoModeDebounceRef s) + 1)%nat by lia.
           rewrite repeat_app, app_assoc. reflexivity.
      * apply GestureType_eqb_neq in E.
        apply streakOk_reset.
        apply (onGesture_other g (lx (landmark lm 0)) s1 E).
  - injection Hstep as <-. unfold timerConsistent in Tc.
    destruct (isCountingDownRef s) eqn:C.
    + destruct Tc as (count & Hi & Hc).
      destruct (intervalCallback_single i env s count Hi) as (Hne & Hpos & Hzero).
      destruct (Nat.eq_dec i 0) as [-> | Hn].
      * destruct (Z_gt_le_dec (count - 1) 0) as [Hg | Hl].
        -- destruct (Hpos eq_refl Hg) as (_ & _ & Hc' & _).
           intros Hidle. congruence.
        -- apply streakOk_reset. apply (Hzero eq_refl Hl).
      * rewrite (Hne Hn). apply (streakOk_unchanged s0 s); auto.
    + rewrite (intervalCallback_none i env s Tc).
      apply (streakOk_unchanged s0 s); auto.
  - injection Hstep as <-.
    apply (streakOk_unchanged s0 s); auto; apply flashTimeout_photo.
  - injection Hstep as <-.
    apply (streakOk_unchanged s0 s); auto; apply animate_photo.
Qed.

Lemma run_snoc (s0 s' : AppState) (es : list Event) (e : Event) :
  run lookAt s0 (es ++ [e]) = Some s' ->
  exists s, run lookAt s0 es = Some s /\ step lookAt s e = Some s'.
Proof.
  rewrite run_app. destruct (run lookAt s0 es) as [s |]; cbn; [| discriminate].
  intros H. exists s. split; [reflexivity |].
  destruct (step lookAt s e); cbn in H; [exact H | discriminate].
Qed.

Lemma run_streakOk (s0 s : AppState) (es : list Event) :
  timerConsistent s0 -> photoModeDebounceRef s0 = 0%Z ->
  run lookAt s0 es = Some s -> streakOk s0 es s.
Proof.
  intros Tc0 Hd0. revert s.
  induction es as [| e es IH] using rev_ind; intros s Hrun.
  - cbn in Hrun. injection Hrun as <-. apply streakOk_reset. exact Hd0.
  - destruct (run_snoc s0 s es e Hrun) as (s1 & Hrun1 & Hstep).
    apply (streakOk_step s0 s1 s es e); auto.
    apply (run_timerConsistent s0 s1 es); assumption.
Qed.

(** X16. The debounce law over the frames that show a hand.  A frame
    without a hand is not among the classified frames of a history: it
    neither counts nor resets.  In every run from a state with no countdown
    pending:
    - a countdown starts only on a frame that completes a row of more than
      10 classified frames, all L_SHAPE_PHOTO and all handled while idle,
      and it starts at 3;
    - a classified frame with any other label resets the debounce count to
      zero;
    - while a countdown runs, an L-shape frame changes neither the count
      nor the live interval nor the registry;
    - there is one live interval while counting down and none while idle,
      and the callback that brings its count to zero calls [capturePhoto]
      once, removes the interval, returns to idle and resets the debounce
      count to zero, while the earlier callbacks capture nothing. *)
Theorem photo_debounce_law (s0 : AppState) (es : list Event) (s : AppState) :
  timerConsistent s0 -> photoModeDebounceRef s0 = 0%Z ->
  run lookAt s0 es = Some s ->
  (forall e s',
      step lookAt s e = Some s' ->
      isCountingDownRef s = false -> isCountingDownRef s' = true ->
      countdown s' = Some 3%Z /\
      exists earlier,
        classifiedFrames (history lookAt s0 (es ++ [e])) =
        earlier ++ repeat (false, L_SHAPE_PHOTO) 11) /\
  (forall f lm rest g,
      processed s f = true -> landmarks f = lm :: rest ->
      detectGesture lm = Some g -> g <> L_SHAPE_PHOTO ->
      exists s', visionLoop f s = Some s' /\ photoModeDebounceRef s' = 0%Z) /\
  (forall f lm rest,
      isCountingDownRef s = true ->
      processed s f = true -> landmarks f = lm :: rest ->
      detectGesture lm = Some L_SHAPE_PHOTO ->
      exists s',
        visionLoop f s = Some s' /\
        photoModeDebounceRef s' = photoModeDebounceRef s /\
        isCountingDownRef s' = true /\ intervals s' = intervals s /\
        countdown s' = countdown s /\ particlesRef s' = particlesRef s) /\
  timerConsistent s /\
  (forall i env count,
      nth_error (intervals s) i = Some count ->
      let s' := intervalCallback i env s in
      if (count - 1 >? 0)%Z
      then particlesRef s' = particlesRef s /\ isCountingDownRef s' = true /\
           intervals s' = [(count - 1)%Z]
      else particlesRef s' = capturePhoto env (particlesRef s) /\
           isCountingDownRef s' = false /\ photoModeDebounceRef s' = 0%Z /\
           intervals s' = []).
Proof.
  intros Tc0 Hd0 Hrun.
  pose proof (run_timerConsistent s0 s es Tc0 Hrun) as Tc.
  pose proof (run_streakOk s0 s es Tc0 Hd0 Hrun) as Inv.
  split; [| split; [| split; [| split]]].
  - intros e s' Hstep Hidle Hcount.
    destruct e as [f | i env | | time]; cbn in Hstep.
    + destruct (visionLoop_outcome f s) as [P | P L | lm rest g P L G | lm rest P L G];
        try discriminate; injection Hstep as <-.
      * congruence.
      * cbn in Hcount. congruence.
      * set (s1 := set_lastVideoTime (currentTime f) s) in *.
        assert (Hc1 : isCountingDownRef s1 = false) by exact Hidle.
        assert (Hd1 : photoModeDebounceRef s1 = photoModeDebounceRef s)
          by reflexivity.
        clearbody s1.
        destruct (GestureType_eqb g L_SHAPE_PHOTO) eqn:E.
        -- apply GestureType_eqb_eq in E. subst g.
           destruct (onGesture_lShape_idle (lx (landmark lm 0)) s1 Hc1)
             as (_ & _ & H).
           destruct (photoModeDebounceRef s1 + 1 >? 10)%Z eqn:Hthr;
             [| destruct H; congruence].
           destruct H as (_ & _ & Hcd). split; [exact Hcd |].
           destruct (Inv Hidle) as (Hpos & earlier & Hh).
           rewrite (history_app s0 s es _ Hrun), classifiedFrames_app, Hh.
           cbn [classifiedFrames].
           rewrite (classifiedFrame_video s f lm rest _ P L G), Hidle.
           exists (earlier ++
                   repeat (false, L_SHAPE_PHOTO)
                          (Z.to_nat (photoModeDebounceRef s) - 10)).
           rewrite <- !app_assoc. f_equal.
           change [(false, L_SHAPE_PHOTO)] with (repeat (false, L_SHAPE_PHOTO) 1).
           rewrite <- !repeat_app. f_equal. lia.
        -- apply GestureType_eqb_neq in E.
           destruct (onGesture_other g (lx (landmark lm 0)) s1 E)
             as (_ & Hc' & _). congruence.
    + injection Hstep as <-. unfold timerConsistent in Tc. rewrite Hidle in Tc.
      rewrite (intervalCallback_none i env s Tc) in Hcount. congruence.
    + injection Hstep as <-.
      destruct (flashTimeout_photo s) as (_ & Hc' & _). congruence.
    + injection Hstep as <-.
      destruct (animate_photo time s) as (_ & Hc' & _). congruence.
  - intros f lm rest g P L G Hg.
    rewrite (visionLoop_classified f s lm rest g P L G).
    eexists. split; [reflexivity |].
    apply (onGesture_other g _ _ Hg).
  - intros f lm rest Hc P L G.
    rewrite (visionLoop_classified f s lm rest _ P L G).
    eexists. split; [reflexivity |].
    apply (onGesture_lShape_counting (lx (landmark lm 0))
             (set_lastVideoTime (currentTime f) s) Hc).
  - exact Tc.
  - intros i env count Hnth. cbv zeta. unfold timerConsistent in Tc.
    destruct (isCountingDownRef s) eqn:C.
    + destruct Tc as (c & Hi & Hc). rewrite Hi in Hnth.
      apply nth_error_singleton in Hnth. destruct Hnth as [-> ->].
      destruct (intervalCallback_single 0 env s count Hi) as (_ & Hpos & Hzero).
      destruct (count - 1 >? 0)%Z eqn:E.
      * destruct (Hpos eq_refl ltac:(lia)) as (Hi' & _ & Hc' & _ & Hp).
        repeat split; congruence.
      * destruct (Hzero eq_refl ltac:(lia)) as (Hi' & _ & Hc' & Hd' & Hp & _).
        repeat split; assumption.
    + rewrite Tc in Hnth. destruct i; discriminate.
Qed.

End EventLoop.

(** *** The debounce law on closed runs *)

Lemma run_one_lShape :
  run lookAtStub (initialState []) [VideoEvent (handFrame lShapeHand 0)] =
  Some (onGesture L_SHAPE_PHOTO (lx (landmark lShapeHand 0))
          (set_lastVideoTime 0 (initialState []))).
Proof. run_video. reflexivity. Qed.

(** Ten L-shape frames in a row leave the machine idle with a count of 10;
    the eleventh starts the countdown at 3. *)
Example ten_frames_do_not_start :
  exists s,
    run lookAtStub (initialState []) (firstn 10 photoScenario) = Some s /\
    isCountingDownRef s = false /\ photoModeDebounceRef s = 10%Z /\
    countdown s = None /\ intervals s = [].
Proof.
  cbn [firstn photoScenario]. run_video. eexists. split; [reflexivity |].
  repeat split; reflexivity.
Qed.

Example eleventh_frame_starts :
  exists s,
    run lookAtStub (initialState []) (firstn 11 photoScenario) = Some s /\
    isCountingDownRef s = true /\ countdown s = Some 3%Z /\
    intervals s = [3%Z] /\ particlesRef s = [].
Proof.
  cbn [firstn photoScenario]. run_video. eexists. split; [reflexivity |].
  repeat split; reflexivity.
Qed.

(** The whole scenario ends idle, with the count at zero and one photo in a
    registry that was empty. *)
Example photoScenario_one_photo :
  exists s p,
    run lookAtStub (initialState []) photoScenario = Some s /\
    particlesRef s = [p] /\ type p = PHOTO /\
    isCountingDownRef s = false /\ photoModeDebounceRef s = 0%Z /\
    countdown s = None /\ intervals s = [].
Proof.
  unfold photoScenario. run_video. eexists. eexists.
  split; [reflexivity |].
  split; [reduce_state; reflexivity |]. repeat split; reflexivity.
Qed.

Lemma photo_debounce_law_witness :
  let s0 := initialState [] in
  let s := onGesture L_SHAPE_PHOTO (lx (landmark lShapeHand 0))
             (set_lastVideoTime 0 s0) in
  timerConsistent s0 /\ photoModeDebounceRef s0 = 0%Z /\
  run lookAtStub s0 [VideoEvent (handFrame lShapeHand 0)] = Some s /\
  timerConsistent s /\
  forall f lm rest g,
    processed s f = true -> landmarks f = lm :: rest ->
    detectGesture lm = Some g -> g <> L_SHAPE_PHOTO ->
    exists s', visionLoop f s = Some s' /\ photoModeDebounceRef s' = 0%Z.
Proof.
  cbv zeta.
  pose proof (photo_debounce_law lookAtStub (initialState [])
                [VideoEvent (handFrame lShapeHand 0)] _
                eq_refl eq_refl run_one_lShape) as (_ & Hb & _ & Ht & _).
  split; [reflexivity |]. split; [reflexivity |].
  split; [exact run_one_lShape |]. split; [exact Ht | exact Hb].
Defined.

(** ** Photo capture *)




(** ** The rotation accumulator *)

Section Rotation.

Variable lookAt : Object3D -> R -> Vector3 -> Vector3.

(** C7, as the code has it.  A render tick adds [rotationSpeedRef] to
    [rotationOffsetRef] and sets the yaw of the group to the sum; no other
    event writes the accumulator; the accumulator does not decrease on a
    tick whose speed is not negative, and decreases on a tick whose speed is
    negative. *)
Theorem rotationOffset_accumulates (s : AppState) (e : Event) :
  match step lookAt s e with
  | None => True
  | Some s' =>
      match e with
      | RenderEvent _ =>
          rotationOffsetRef s' = rotationOffsetRef s + rotationSpeedRef s /\
          mainGroupRotationY s' = rotationOffsetRef s' /\
          (0 <= rotationSpeedRef s -> rotationOffsetRef s <= rotationOffsetRef s') /\
          (rotationSpeedRef s < 0 -> rotationOffsetRef s' < rotationOffsetRef s)
      | _ => rotationOffsetRef s' = rotationOffsetRef s
      end
  end.
Proof.
  destruct e as [f | i env | | time]; cbn [step].
  - destruct (visionLoop_outcome f s); try exact I; try reflexivity.
    unfold onGesture. machine.
  - unfold intervalCallback.
    destruct (nth_error (intervals s) i) as [count |]; [| reflexivity].
    destruct (count - 1 >? 0)%Z; reflexivity.
  - unfold flashTimeout. destruct (flashTimeouts s); reflexivity.
  - unfold animate. cbn. repeat split; intros; lra.
Qed.

End Rotation.

(** C7 as stated fails: an open hand at the left edge of the frame sets a
    negative speed, and the next render tick moves the accumulator down. *)
Lemma rotationOffset_not_monotone :
  exists s,
    run lookAtStub (initialState []) [VideoEvent (handFrame (openHand 0) 0)]
      = Some s /\
    rotationSpeedRef s = (0 - 0.5) * 0.02 /\
    rotationOffsetRef (animate lookAtStub 0 s) < rotationOffsetRef s.
Proof.
  run_video. eexists. split; [reflexivity |].
  split; [reflexivity | reduce_state; lra].
Qed.

(** ** The animation step *)

Lemma vlength_negate (v : Vector3) : vlength (negate v) = vlength v.
Proof. unfold vlength, negate. cbn. f_equal. ring. Qed.

Lemma negate_involutive (v : Vector3) : negate (negate v) = v.
Proof. destruct v. unfold negate. cbn. f_equal; ring. Qed.

Lemma nth_error_forEachIndexed {A : Type} (f : nat -> A -> A) (l : list A)
    (k i : nat) :
  nth_error (forEachIndexed f k l) i = option_map (f (k + i)%nat) (nth_error l i).
Proof.
  revert k i. induction l as [| a l IH]; intros k i; cbn.
  - destruct i; reflexivity.
  - destruct i; cbn.
    + rewrite Nat.add_0_r. reflexivity.
    + rewrite IH. replace (S k + i)%nat with (k + S i)%nat by lia. reflexivity.
Qed.

(** The particle data each branch of the loop body leaves alone. *)
Lemma focusBehaviour_data (lookAt : Object3D -> R -> Vector3 -> Vector3)
    (yaw : R) (p : Particle) :
  let p' := snd (focusBehaviour lookAt yaw p) in
  fst (focusBehaviour lookAt yaw p) = mkVector3 0 5 55 /\
  type p' = type p /\ treePos p' = treePos p /\ scatterPos p' = scatterPos p /\
  velocity p' = velocity p /\ position (mesh p') = position (mesh p).
Proof. repeat split. Qed.

Lemma treeBehaviour_data (time : R) (p : Particle) :
  let p' := snd (treeBehaviour time p) in
  fst (treeBehaviour time p) = treePos p /\
  type p' = type p /\ treePos p' = treePos p /\ scatterPos p' = scatterPos p /\
  velocity p' = velocity p /\ position (mesh p') = position (mesh p).
Proof.
  unfold treeBehaviour.
  destruct (ParticleType_eqb (type p) LIGHT),
           (ParticleType_eqb (type p) SNOWFLAKE),
           (ParticleType_eqb (type p) PHOTO); repeat split.
Qed.

Lemma scatterBehaviour_data (p : Particle) :
  let p' := snd (scatterBehaviour p) in
  fst (scatterBehaviour p) = scatterPos p' /\
  type p' = type p /\ treePos p' = treePos p /\
  scatterPos p' = add (scatterPos p) (velocity p) /\
  velocity p' =
    (if Rgtb (vlength (add (scatterPos p) (velocity p))) SCATTER_RADIUS
     then negate (velocity p) else velocity p) /\
  position (mesh p') = position (mesh p).
Proof.
  unfold scatterBehaviour. cbn.
  destruct (Rgtb (vlength (add (scatterPos p) (velocity p))) SCATTER_RADIUS);
    cbn; destruct (ParticleType_eqb (type p) PHOTO); repeat split.
Qed.

(** The test of the loop body that sends a particle to the scatter branch:
    it is not the focused photo, and the tree branch does not apply. *)
Definition scatterInfluenced (currentMode : AppMode)
    (currentGesture : GestureType) (nearestPhoto : option nat)
    (i : nat) (p : Particle) : bool :=
  negb (GestureType_eqb currentGesture PINCH_ZOOM && isNearest nearestPhoto i
        && ParticleType_eqb (type p) PHOTO)
  && negb (AppMode_eqb currentMode TREE
           && negb (GestureType_eqb currentGesture PINCH_ZOOM)).

Lemma animateParticle_data (lookAt : Object3D -> R -> Vector3 -> Vector3)
    (yaw time : R) (currentMode : AppMode) (currentGesture : GestureType)
    (nearestPhoto : option nat) (i : nat) (p : Particle) :
  let b := behaviour lookAt yaw time currentMode currentGesture nearestPhoto i p in
  let p' := animateParticle lookAt yaw time currentMode currentGesture
                            nearestPhoto i p in
  type p' = type (snd b) /\ treePos p' = treePos (snd b) /\
  scatterPos p' = scatterPos (snd b) /\ velocity p' = velocity (snd b) /\
  position (mesh p') = lerp (position (mesh (snd b))) (fst b) LERP_SPEED.
Proof.
  cbv zeta. unfold animateParticle.
  destruct (behaviour lookAt yaw time currentMode currentGesture nearestPhoto i p)
    as [target q].
  repeat split.
Qed.

(** The velocity of a particle after one pass of the loop body is the old
    one or its negation. *)
Lemma animateParticle_velocity (lookAt : Object3D -> R -> Vector3 -> Vector3)
    (yaw time : R) (currentMode : AppMode) (currentGesture : GestureType)
    (nearestPhoto : option nat) (i : nat) (p : Particle) :
  let p' := animateParticle lookAt yaw time currentMode currentGesture
                            nearestPhoto i p in
  velocity p' = velocity p \/ velocity p' = negate (velocity p).
Proof.
  cbv zeta.
  destruct (animateParticle_data lookAt yaw time currentMode currentGesture
              nearestPhoto i p) as (_ & _ & _ & Hv & _).
  rewrite Hv. unfold behaviour.
  destruct (GestureType_eqb currentGesture PINCH_ZOOM && isNearest nearestPhoto i
            && ParticleType_eqb (type p) PHOTO).
  - left. apply focusBehaviour_data.
  - destruct (AppMode_eqb currentMode TREE
              && negb (GestureType_eqb currentGesture PINCH_ZOOM)).
    + left. apply treeBehaviour_data.
    + destruct (scatterBehaviour_data p) as (_ & _ & _ & _ & Hs & _).
      rewrite Hs.
      destruct (Rgtb (vlength (add (scatterPos p) (velocity p))) SCATTER_RADIUS);
        auto.
Qed.

Lemma onGesture_particles (g : GestureType) (palmX : R) (s : AppState) :
  particlesRef (onGesture g palmX s) = particlesRef s.
Proof.
  destruct (GestureType_eqb g L_SHAPE_PHOTO) eqn:E.
  - apply GestureType_eqb_eq in E. subst g.
    destruct (isCountingDownRef s) eqn:C.
    + apply (onGesture_lShape_counting palmX s C).
    + apply (onGesture_lShape_idle palmX s C).
  - apply GestureType_eqb_neq in E. apply (onGesture_other g palmX s E).
Qed.

Lemma capturePhoto_keeps (env : CaptureEnv) (particles : list Particle)
    (i : nat) (q : Particle) :
  nth_error particles i = Some q ->
  nth_error (capturePhoto env particles) i = Some q.
Proof.
  intros Hq. unfold capturePhoto.
  destruct (videoRef env); [| exact Hq].
  destruct (negb (context2d env)); [exact Hq |].
  destruct (treeDraws env) as [[u1 u2] u3].
  rewrite nth_error_app1; [exact Hq |].
  apply nth_error_Some. congruence.
Qed.

Section Scatter.

Variable lookAt : Object3D -> R -> Vector3 -> Vector3.

Lemma step_velocity (s s' : AppState) (e : Event) (i : nat) (p : Particle) :
  step lookAt s e = Some s' -> nth_error (particlesRef s) i = Some p ->
  exists p',
    nth_error (particlesRef s') i = Some p' /\
    (velocity p' = velocity p \/ velocity p' = negate (velocity p)).
Proof.
  intros Hstep Hp. destruct e as [f | k env | | time]; cbn in Hstep.
  - exists p. split; [| auto].
    destruct (visionLoop_outcome f s); try discriminate;
      injection Hstep as <-; try exact Hp.
    rewrite onGesture_particles. exact Hp.
  - injection Hstep as <-. exists p. split; [| auto].
    unfold intervalCallback.
    destruct (nth_error (intervals s) k) as [count |]; [| exact Hp].
    destruct (count - 1 >? 0)%Z; cbn; [exact Hp |].
    apply capturePhoto_keeps. exact Hp.
  - injection Hstep as <-. exists p. split; [| auto].
    destruct (flashTimeout_photo s) as (_ & _ & _ & _ & ->). exact Hp.
  - injection Hstep as <-. unfold animate. cbn.
    rewrite nth_error_forEachIndexed, Hp. cbn.
    eexists. split; [reflexivity |]. apply animateParticle_velocity.
Qed.

Lemma run_velocity (s s' : AppState) (es : list Event) (i : nat) (p : Particle) :
  run lookAt s es = Some s' -> nth_error (particlesRef s) i = Some p ->
  exists p',
    nth_error (particlesRef s') i = Some p' /\
    (velocity p' = velocity p \/ velocity p' = negate (velocity p)).
Proof.
  revert s p. induction es as [| e es IH]; intros s p Hrun Hp; cbn in Hrun.
  - injection Hrun as <-. exists p. auto.
  - destruct (step lookAt s e) as [s1 |] eqn:Hstep; [| discriminate].
    cbn in Hrun.
    destruct (step_velocity s s1 e i p Hstep Hp) as (p1 & Hp1 & Hv1).
    destruct (IH s1 p1 Hrun Hp1) as (p' & Hp' & Hv').
    exists p'. split; [exact Hp' |].
    destruct Hv1 as [H1 | H1], Hv' as [H2 | H2]; rewrite H2, H1; auto.
    left. apply negate_involutive.
Qed.

(** C5. Take a particle of the registry and any run of the event loop.  The
    particle is still in its place, and the magnitude of its velocity is
    what it was, however many reflections the run contained.  On a further
    pass of the loop body that takes the scatter branch, [scatterPos]
    becomes [scatterPos + velocity] and nothing else; if the magnitude of
    the new [scatterPos] exceeds the scatter radius the velocity becomes the
    exact negation of what it was, and otherwise it stays. *)
Theorem scatter_reflection_law (s s' : AppState) (es : list Event)
    (i : nat) (p : Particle) :
  run lookAt s es = Some s' -> nth_error (particlesRef s) i = Some p ->
  exists p',
    nth_error (particlesRef s') i = Some p' /\
    vlength (velocity p') = vlength (velocity p) /\
    forall yaw time currentMode currentGesture nearestPhoto,
      scatterInfluenced currentMode currentGesture nearestPhoto i p' = true ->
      let q := animateParticle lookAt yaw time currentMode currentGesture
                               nearestPhoto i p' in
      scatterPos q = add (scatterPos p') (velocity p') /\
      (vlength (scatterPos q) > SCATTER_RADIUS ->
         velocity q = negate (velocity p')) /\
      (~ vlength (scatterPos q) > SCATTER_RADIUS -> velocity q = velocity p') /\
      vlength (velocity q) = vlength (velocity p').
Proof.
  intros Hrun Hp.
  destruct (run_velocity s s' es i p Hrun Hp) as (p' & Hp' & Hv).
  exists p'. split; [exact Hp' |]. split.
  { destruct Hv as [-> | ->]; [reflexivity | apply vlength_negate]. }
  intros yaw time currentMode currentGesture nearestPhoto Hs. cbv zeta.
  destruct (animateParticle_data lookAt yaw time currentMode currentGesture
              nearestPhoto i p') as (_ & _ & Hsp & Hvel & _).
  rewrite Hsp, Hvel. unfold behaviour.
  unfold scatterInfluenced in Hs. apply andb_true_iff in Hs.
  destruct Hs as [Hf Ht]. apply negb_true_iff in Hf, Ht. rewrite Hf, Ht.
  destruct (scatterBehaviour_data p') as (_ & _ & _ & Hpos & Hneg & _).
  rewrite Hpos, Hneg.
  split; [reflexivity |].
  split; [| split].
  - intros Hout. rewrite (proj2 (Rgtb_true _ _) Hout). reflexivity.
  - intros Hin. rewrite (proj2 (Rgtb_false _ _) Hin). reflexivity.
  - destruct (Rgtb (vlength (add (scatterPos p') (velocity p'))) SCATTER_RADIUS);
      [apply vlength_negate | reflexivity].
Qed.

End Scatter.

Lemma vlength_x_axis (x : R) : vlength (mkVector3 x 0 0) = Rabs x.
Proof.
  unfold vlength. cbn.
  replace (x * x + 0 * 0 + 0 * 0) with (Rsqr x) by (unfold Rsqr; ring).
  apply sqrt_Rsqr_abs.
Qed.

(** A crossing: at 69.95 on the x axis with velocity 0.08 the particle goes
    to 70.03, outside the radius of 70, and its velocity turns to -0.08. *)
Example boundaryParticle_reflects :
  let q := animateParticle lookAtStub 0 0 SCATTER OPEN_ROTATE None 0
                           boundaryParticle in
  scatterPos q = mkVector3 (69.95 + 0.08) (0 + 0) (0 + 0) /\
  velocity q = negate (mkVector3 0.08 0 0).
Proof.
  cbv zeta.
  destruct (animateParticle_data lookAtStub 0 0 SCATTER OPEN_ROTATE None 0
              boundaryParticle) as (_ & _ & Hsp & Hvel & _).
  rewrite Hsp, Hvel. unfold behaviour. cbn [GestureType_eqb andb AppMode_eqb].
  destruct (scatterBehaviour_data boundaryParticle) as (_ & _ & _ & Hpos & Hneg & _).
  rewrite Hpos, Hneg. split; [reflexivity |].
  unfold boundaryParticle, add. cbn [scatterPos velocity vx vy vz].
  replace (0 + 0) with 0 by ring. rewrite vlength_x_axis.
  unfold SCATTER_RADIUS. eval_cmp. reflexivity.
Qed.

Lemma scatter_reflection_law_witness :
  let s := initialState [boundaryParticle] in
  run lookAtStub s [RenderEvent 0] = Some (animate lookAtStub 0 s) /\
  nth_error (particlesRef s) 0 = Some boundaryParticle /\
  exists p',
    nth_error (particlesRef (animate lookAtStub 0 s)) 0 = Some p' /\
    vlength (velocity p') = vlength (velocity boundaryParticle).
Proof.
  cbv zeta. split; [reflexivity |]. split; [reflexivity |].
  destruct (scatter_reflection_law lookAtStub (initialState [boundaryParticle])
              (animate lookAtStub 0 (initialState [boundaryParticle]))
              [RenderEvent 0] 0 boundaryParticle eq_refl eq_refl)
    as (p' & Hp' & Hv & _).
  exists p'. split; [exact Hp' | exact Hv].
Defined.

(** *** Repeated interpolation *)

Definition sub (a v : Vector3) : Vector3 :=
  mkVector3 (vx a - vx v) (vy a - vy v) (vz a - vz v).

(** The position after [N] passes of [position.lerp(target, LERP_SPEED)]
    with the same target. *)
Fixpoint lerpTicks (N : nat) (p0 target : Vector3) : Vector3 :=
  match N with
  | O => p0
  | S n => lerp (lerpTicks n p0 target) target LERP_SPEED
  end.

(** [x] lies between [a] and [b], ends included. *)
Definition between (a x b : R) : Prop := a <= x <= b \/ b <= x <= a.

Lemma lerpTicks_shift (N : nat) (p0 target : Vector3) :
  lerpTicks (S N) p0 target = lerpTicks N (lerp p0 target LERP_SPEED) target.
Proof.
  induction N as [| n IH]; [reflexivity |].
  cbn [lerpTicks] in *. rewrite IH. reflexivity.
Qed.

Lemma lerpTicks_closed_form (N : nat) (p0 target : Vector3) :
  lerpTicks N p0 target =
  add p0 (multiplyScalar (sub target p0) (1 - (1 - LERP_SPEED) ^ N)).
Proof.
  induction N as [| n IH].
  - destruct p0 as [x y z]. unfold add, multiplyScalar, sub. cbn.
    f_equal; ring.
  - cbn [lerpTicks]. rewrite IH.
    unfold lerp, add, multiplyScalar, sub. cbn [vx vy vz pow].
    f_equal; ring.
Qed.

Lemma decay_bounds (N : nat) : 0 < (1 - LERP_SPEED) ^ N <= 1.
Proof.
  unfold LERP_SPEED. split.
  - apply pow_lt. lra.
  - apply Rle_trans with (1 ^ N); [apply pow_incr; lra | rewrite pow1; lra].
Qed.

Lemma between_closed_form (a b k : R) :
  0 <= k <= 1 -> between a (a + (b - a) * k) b.
Proof. intros Hk. unfold between. destruct (Rle_dec a b); [left | right]; nra. Qed.

Lemma distanceTo_lerp (a target : Vector3) (alpha : R) :
  0 <= alpha <= 1 ->
  distanceTo (lerp a target alpha) target = (1 - alpha) * distanceTo a target.
Proof.
  intros Ha. unfold distanceTo, lerp. cbn [vx vy vz].
  set (dx := vx a - vx target). set (dy := vy a - vy target).
  set (dz := vz a - vz target).
  replace (vx a + (vx target - vx a) * alpha - vx target)
    with ((1 - alpha) * dx) by (unfold dx; ring).
  replace (vy a + (vy target - vy a) * alpha - vy target)
    with ((1 - alpha) * dy) by (unfold dy; ring).
  replace (vz a + (vz target - vz a) * alpha - vz target)
    with ((1 - alpha) * dz) by (unfold dz; ring).
  replace ((1 - alpha) * dx * ((1 - alpha) * dx)
           + (1 - alpha) * dy * ((1 - alpha) * dy)
           + (1 - alpha) * dz * ((1 - alpha) * dz))
    with (((1 - alpha) * (1 - alpha)) * (dx * dx + dy * dy + dz * dz)) by ring.
  rewrite sqrt_mult_alt by nra.
  rewrite sqrt_square by lra. reflexivity.
Qed.

Section Interpolation.

Variable lookAt : Object3D -> R -> Vector3 -> Vector3.

(** In tree mode, away from a pinch, a render tick moves the mesh of every
    particle by one interpolation step toward its place in the tree. *)
Lemma animate_tree_position (time : R) (s : AppState) (i : nat) (p : Particle) :
  modeRef s = TREE -> gestureRef s <> PINCH_ZOOM ->
  nth_error (particlesRef s) i = Some p ->
  exists p',
    nth_error (particlesRef (animate lookAt time s)) i = Some p' /\
    position (mesh p') = lerp (position (mesh p)) (treePos p) LERP_SPEED /\
    treePos p' = treePos p /\
    modeRef (animate lookAt time s) = TREE /\
    gestureRef (animate lookAt time s) = gestureRef s.
Proof.
  intros Hm Hg Hp. unfold animate. cbn.
  rewrite nth_error_forEachIndexed, Hp. cbn.
  eexists. split; [reflexivity |].
  apply GestureType_eqb_neq in Hg.
  match goal with |- context [animateParticle ?l ?y ?t ?m ?g ?n ?k p] =>
    destruct (animateParticle_data l y t m g n k p) as (_ & Ht & _ & _ & Hpos);
    rewrite Hpos, Ht; unfold behaviour
  end.
  rewrite Hg, Hm. cbn [andb negb AppMode_eqb].
  destruct (treeBehaviour_data time p) as (Hfst & _ & Htree & _ & _ & Hmesh).
  rewrite Hfst, Htree, Hmesh. repeat split.
Qed.

Lemma run_tree_ticks (times : list R) (s : AppState) (i : nat) (p : Particle) :
  modeRef s = TREE -> gestureRef s <> PINCH_ZOOM ->
  nth_error (particlesRef s) i = Some p ->
  exists s' p',
    run lookAt s (map RenderEvent times) = Some s' /\
    nth_error (particlesRef s') i = Some p' /\
    position (mesh p') =
      lerpTicks (length times) (position (mesh p)) (treePos p) /\
    treePos p' = treePos p.
Proof.
  revert s p. induction times as [| t times IH]; intros s p Hm Hg Hp.
  - exists s, p. cbn. auto.
  - destruct (animate_tree_position t s i p Hm Hg Hp)
      as (p1 & Hp1 & Hpos1 & Ht1 & Hm1 & Hg1).
    rewrite <- Hg1 in Hg.
    destruct (IH (animate lookAt t s) p1 Hm1 Hg Hp1) as (s' & p' & Hrun & Hp' & Hpos & Ht).
    exists s', p'. cbn [map run step bind]. split; [exact Hrun |].
    split; [exact Hp' |]. split; [| congruence].
    cbn [length]. rewrite lerpTicks_shift, Hpos, Hpos1, Ht1. reflexivity.
Qed.

(** C6. After [N] ticks of interpolation with factor 0.025 toward a fixed
    target [T] the position is [p0 + (T - p0) * (1 - (1 - 0.025)^N)]; the
    distance to [T] does not grow from one tick to the next, and every
    coordinate stays between its start and its target.  In tree mode, away
    from a pinch, [N] render ticks are [N] such steps toward [treePos] for
    every particle of the registry. *)
Theorem lerp_convergence (p0 T : Vector3) (N : nat) :
  let pN := lerpTicks N p0 T in
  pN = add p0 (multiplyScalar (sub T p0) (1 - (1 - LERP_SPEED) ^ N)) /\
  distanceTo (lerpTicks (S N) p0 T) T <= distanceTo pN T /\
  (between (vx p0) (vx pN) (vx T) /\ between (vy p0) (vy pN) (vy T) /\
   between (vz p0) (vz pN) (vz T)) /\
  forall (times : list R) (s : AppState) (i : nat) (p : Particle),
    length times = N ->
    modeRef s = TREE -> gestureRef s <> PINCH_ZOOM ->
    nth_error (particlesRef s) i = Some p ->
    position (mesh p) = p0 -> treePos p = T ->
    exists s' p',
      run lookAt s (map RenderEvent times) = Some s' /\
      nth_error (particlesRef s') i = Some p' /\
      position (mesh p') = pN.
Proof.
  cbv zeta. split; [apply lerpTicks_closed_form |]. split; [| split].
  - cbn [lerpTicks]. rewrite distanceTo_lerp by (unfold LERP_SPEED; lra).
    assert (H : 0 <= distanceTo (lerpTicks N p0 T) T) by apply sqrt_pos.
    unfold LERP_SPEED. nra.
  - rewrite lerpTicks_closed_form. unfold add, multiplyScalar, sub.
    cbn [vx vy vz].
    pose proof (decay_bounds N) as Hd.
    repeat split; apply between_closed_form; lra.
  - intros times s i p Hlen Hm Hg Hp Hpos Ht.
    destruct (run_tree_ticks times s i p Hm Hg Hp) as (s' & p' & Hrun & Hp' & Hpos' & _).
    exists s', p'. rewrite Hpos', Hlen, Hpos, Ht. auto.
Qed.

End Interpolation.

Lemma lerp_convergence_witness :
  let s := initialState [boundaryParticle] in
  modeRef s = TREE /\ gestureRef s <> PINCH_ZOOM /\
  nth_error (particlesRef s) 0 = Some boundaryParticle /\
  exists s' p',
    run lookAtStub s (map RenderEvent [0]) = Some s' /\
    nth_error (particlesRef s') 0 = Some p' /\
    position (mesh p') = lerpTicks 1 zero3 (mkVector3 3 4 0).
Proof.
  cbv zeta. split; [reflexivity |]. split; [discriminate |].
  split; [reflexivity |].
  apply (proj2 (proj2 (proj2
           (lerp_convergence lookAtStub zero3 (mkVector3 3 4 0) 1)))
           [0] (initialState [boundaryParticle]) 0%nat boundaryParticle);
    try reflexivity.
  discriminate.
Defined.

(** *** The target of a particle *)

(** The photo [animate] selects on a tick that starts in state [s], and the
    test that makes particle [i] the focused one. *)
Definition focusedPhoto (s : AppState) : option nat :=
  if GestureType_eqb (gestureRef s) PINCH_ZOOM
  then findNearestPhoto (rotationOffsetRef s + rotationSpeedRef s)
                        (particlesRef s) 0 None None
  else None.

Definition isFocused (s : AppState) (i : nat) (p : Particle) : bool :=
  GestureType_eqb (gestureRef s) PINCH_ZOOM && isNearest (focusedPhoto s) i
  && ParticleType_eqb (type p) PHOTO.

Definition inTreeBehaviour (s : AppState) : bool :=
  AppMode_eqb (modeRef s) TREE && negb (GestureType_eqb (gestureRef s) PINCH_ZOOM).

Section Targets.

Variable lookAt : Object3D -> R -> Vector3 -> Vector3.

(** C3, as the code has it.  On every render tick every particle of the
    registry has one target: the fixed point (0, 5, 55) if it is the focused
    photo of a pinch, else its [treePos] in tree mode away from a pinch,
    else its [scatterPos] after the velocity was added.  The tick moves the
    mesh position by one interpolation step of factor 0.025 toward that
    target, and leaves [treePos] as it was. *)
Theorem animate_target (time : R) (s : AppState) (i : nat) (p : Particle) :
  nth_error (particlesRef s) i = Some p ->
  exists p',
    nth_error (particlesRef (animate lookAt time s)) i = Some p' /\
    treePos p' = treePos p /\
    let target :=
      if isFocused s i p then mkVector3 0 5 55
      else if inTreeBehaviour s then treePos p'
      else scatterPos p' in
    position (mesh p') = lerp (position (mesh p)) target LERP_SPEED /\
    scatterPos p' =
      (if isFocused s i p || inTreeBehaviour s then scatterPos p
       else add (scatterPos p) (velocity p)).
Proof.
  intros Hp. unfold animate. cbn.
  rewrite nth_error_forEachIndexed, Hp. cbn.
  eexists. split; [reflexivity |].
  match goal with |- context [animateParticle ?l ?y ?t ?m ?g ?n ?k p] =>
    destruct (animateParticle_data l y t m g n k p) as (_ & Ht & Hs & _ & Hpos);
    rewrite Hpos, Ht, Hs; unfold behaviour
  end.
  unfold isFocused, inTreeBehaviour, focusedPhoto.
  destruct (GestureType_eqb (gestureRef s) PINCH_ZOOM &&
            isNearest
              (if GestureType_eqb (gestureRef s) PINCH_ZOOM
               then findNearestPhoto (rotationOffsetRef s + rotationSpeedRef s)
                                     (particlesRef s) 0 None None
               else None) i && ParticleType_eqb (type p) PHOTO).
  - destruct (focusBehaviour_data lookAt (rotationOffsetRef s + rotationSpeedRef s) p)
      as (Hf & _ & Htp & Hsp & _ & Hm).
    rewrite Hf, Htp, Hsp, Hm. repeat split.
  - destruct (AppMode_eqb (modeRef s) TREE
              && negb (GestureType_eqb (gestureRef s) PINCH_ZOOM)).
    + destruct (treeBehaviour_data time p) as (Hf & _ & Htp & Hsp & _ & Hm).
      rewrite Hf, Htp, Hsp, Hm. repeat split.
    + destruct (scatterBehaviour_data p) as (Hf & _ & Htp & Hsp & _ & Hm).
      rewrite Hf, Htp, Hsp, Hm. repeat split.
Qed.

End Targets.

Lemma animate_target_witness :
  let s := initialState [boundaryParticle] in
  nth_error (particlesRef s) 0 = Some boundaryParticle /\
  exists p',
    nth_error (particlesRef (animate lookAtStub 0 s)) 0 = Some p' /\
    treePos p' = treePos boundaryParticle.
Proof.
  cbv zeta. split; [reflexivity |].
  destruct (animate_target lookAtStub 0 (initialState [boundaryParticle]) 0
              boundaryParticle eq_refl) as (p' & Hp' & Ht & _).
  exists p'. split; [exact Hp' | exact Ht].
Defined.

(** C3 as stated fails for the focused photo.  After the photo scenario and
    a pinch frame the registry holds one photo; the next render tick moves
    it toward (0, 5, 55), which is neither an interpolation step toward its
    [treePos] nor one toward its [scatterPos]. *)
Lemma focused_photo_target_is_neither :
  exists s p p',
    run lookAtStub (initialState [])
        (photoScenario ++ [VideoEvent (handFrame pinchHand 12)]) = Some s /\
    particlesRef s = [p] /\
    particlesRef (animate lookAtStub 0 s) = [p'] /\
    position (mesh p') = lerp (position (mesh p)) (mkVector3 0 5 55) LERP_SPEED /\
    position (mesh p') <> lerp (position (mesh p)) (treePos p') LERP_SPEED /\
    position (mesh p') <> lerp (position (mesh p)) (scatterPos p') LERP_SPEED.
Proof.
  unfold photoScenario. cbn [app]. run_video.
  eexists. eexists. eexists. split; [reflexivity |].
  split; [reduce_state; reflexivity |].
  split; [reduce_state; reflexivity |].
  split; [reduce_state; reflexivity |].
  split; intros H; apply (f_equal vy) in H; reduce_state_in H; lra.
Qed.

(** * Further properties of the program *)

(** ** The classifier: position of the hand and short hands *)

(** A hand moved by [(dx, dy)] in the image, and a hand mirrored left to
    right. *)
Definition shiftLandmark (dx dy : R) (l : NormalizedLandmark) : NormalizedLandmark :=
  mkLandmark (lx l + dx) (ly l + dy) (lz l).

Definition mirrorLandmark (l : NormalizedLandmark) : NormalizedLandmark :=
  mkLandmark (1 - lx l) (ly l) (lz l).

Lemma detectGesture_by_distances (lm lm' : list NormalizedLandmark) :
  (forall i j,
      d (nth_error lm i) (nth_error lm j) =
      d (nth_error lm' i) (nth_error lm' j)) ->
  detectGesture lm = detectGesture lm'.
Proof.
  intros Hd. unfold detectGesture. cbn [sumTipDist]. rewrite !Hd. reflexivity.
Qed.

Lemma d_map (f : NormalizedLandmark -> NormalizedLandmark)
    (lm : list NormalizedLandmark) :
  (forall a b, hypot (lx (f a) - lx (f b)) (ly (f a) - ly (f b)) =
               hypot (lx a - lx b) (ly a - ly b)) ->
  forall i j,
    d (nth_error (map f lm) i) (nth_error (map f lm) j) =
    d (nth_error lm i) (nth_error lm j).
Proof.
  intros Hf i j. rewrite !nth_error_map.
  destruct (nth_error lm i) as [a |], (nth_error lm j) as [b |]; cbn;
    try reflexivity.
  rewrite Hf. reflexivity.
Qed.

(** X1. The label does not depend on where in the image the hand is, nor on
    whether it is seen mirrored: moving every landmark by the same offset,
    or replacing every x by 1 - x, gives the same result. *)
Theorem detectGesture_position_invariant (lm : list NormalizedLandmark)
    (dx dy : R) :
  detectGesture (map (shiftLandmark dx dy) lm) = detectGesture lm /\
  detectGesture (map mirrorLandmark lm) = detectGesture lm.
Proof.
  split; apply detectGesture_by_distances; apply d_map; intros a b;
    unfold hypot; cbn [lx ly shiftLandmark mirrorLandmark]; f_equal; ring.
Qed.

Lemma nth_error_short {A : Type} (l : list A) (k : nat) :
  (length l <= k)%nat -> nth_error l k = None.
Proof. apply nth_error_None. Qed.

(** X2. A hand with fewer than 21 landmarks.  With fewer than 9 the classifier
    raises.  With 9 to 20 it still answers PINCH_ZOOM when thumb tip and
    index tip are nearer than 0.05, and raises otherwise.  With 21 or more
    it always answers. *)
Theorem detectGesture_short_hand (lm : list NormalizedLandmark) :
  ((length lm < 9)%nat -> detectGesture lm = None) /\
  ((9 <= length lm < 21)%nat ->
     detectGesture lm =
     if Rltb (dist2D (landmark lm 4) (landmark lm 8)) 0.05
     then Some PINCH_ZOOM else None) /\
  ((21 <= length lm)%nat -> detectGesture lm <> None).
Proof.
  split; [| split].
  - intros H. unfold detectGesture.
    rewrite (nth_error_short lm 8) by lia.
    destruct (nth_error lm 4); reflexivity.
  - intros H. unfold detectGesture.
    rewrite (nth_error_landmark lm 4), (nth_error_landmark lm 8),
            (nth_error_landmark lm 0) by lia.
    rewrite (nth_error_short lm 20) by lia.
    rewrite !d_dist2D. cbn [bind].
    destruct (Rltb (dist2D (landmark lm 4) (landmark lm 8)) 0.05);
      [reflexivity |].
    destruct (d (nth_error lm 12) (Some (landmark lm 0))); cbn [bind];
      [| reflexivity].
    destruct (d (nth_error lm 16) (Some (landmark lm 0))); reflexivity.
  - intros H. unfold detectGesture.
    rewrite !nth_error_landmark by lia.
    cbn [sumTipDist bind]. rewrite !d_dist2D. cbn [bind].
    repeat match goal with |- context [if ?c then _ else _] =>
      destruct c end; discriminate.
Qed.

Lemma detectGesture_short_hand_witness :
  (length (firstn 9 pinchHand) < 21)%nat /\
  detectGesture (firstn 9 pinchHand) =
  if Rltb (dist2D (landmark (firstn 9 pinchHand) 4)
                  (landmark (firstn 9 pinchHand) 8)) 0.05
  then Some PINCH_ZOOM else None.
Proof.
  split; [cbn; lia |].
  apply (proj1 (proj2 (detectGesture_short_hand (firstn 9 pinchHand)))).
  cbn. lia.
Defined.

(** ** The vision loop: gating and transitions *)

Lemma onGesture_lastVideoTime (g : GestureType) (palmX : R) (s : AppState) :
  lastVideoTime (onGesture g palmX s) = lastVideoTime s.
Proof. destruct g; machine. Qed.




(** X4. The transitions of the three commands.  A processed frame classified
    OPEN_ROTATE puts the machine in SCATTER mode with the rotation speed
    [(palmX - 0.5) * 0.02], where [palmX] is the x coordinate of the wrist;
    PINCH_ZOOM puts it in SCATTER mode with speed 0.002; FIST puts it in
    TREE mode with speed 0.005.  Each stores the label and resets the
    debounce count; none touches the registry or a running countdown. *)
Theorem command_transitions (f : VideoFrame) (s : AppState)
    (lm : list NormalizedLandmark) (rest : list (list NormalizedLandmark))
    (g : GestureType) :
  processed s f = true -> landmarks f = lm :: rest ->
  detectGesture lm = Some g ->
  g = OPEN_ROTATE \/ g = PINCH_ZOOM \/ g = FIST ->
  exists s',
    visionLoop f s = Some s' /\
    gestureRef s' = g /\
    modeRef s' = (if GestureType_eqb g FIST then TREE else SCATTER) /\
    rotationSpeedRef s' =
      (match g with
       | OPEN_ROTATE => (lx (landmark lm 0) - 0.5) * 0.02
       | PINCH_ZOOM => 0.002
       | _ => 0.005
       end) /\
    photoModeDebounceRef s' = 0%Z /\
    isCountingDownRef s' = isCountingDownRef s /\
    intervals s' = intervals s /\
    particlesRef s' = particlesRef s.
Proof.
  intros P L G Hg. rewrite (visionLoop_classified f s lm rest g P L G).
  eexists. split; [reflexivity |].
  destruct Hg as [-> | [-> | ->]]; repeat split; machine;
    match goal with
    | H : negb (AppMode_eqb _ _) = false |- _ =>
        apply negb_false_iff, AppMode_eqb_eq in H; exact H
    end.
Qed.

Lemma command_transitions_witness :
  let s := initialState [] in
  let f := handFrame (openHand 1) 0 in
  processed s f = true /\
  exists s',
    visionLoop f s = Some s' /\ modeRef s' = SCATTER /\
    rotationSpeedRef s' = (lx (landmark (openHand 1) 0) - 0.5) * 0.02.
Proof.
  cbv zeta.
  assert (P : processed (initialState []) (handFrame (openHand 1) 0) = true).
  { apply processed_fresh; [cbn; lia | cbn; lra]. }
  split; [exact P |].
  destruct (command_transitions (handFrame (openHand 1) 0) (initialState [])
              (openHand 1) [] OPEN_ROTATE P eq_refl
              (detectGesture_openHand 1) (or_introl eq_refl))
    as (s' & Hv & _ & Hm & Hs & _).
  exists s'. split; [exact Hv |]. split; [exact Hm | exact Hs].
Defined.

(** ** What the overlays show *)

(** The React state the overlays read agrees with the refs and the timers:
    the displayed mode is the mode of the machine, the camera preview is
    shown exactly while a countdown runs, the displayed number is the count
    of the live interval, and a flash that is on has a timeout pending that
    will turn it off. *)
Definition overlayConsistent (s : AppState) : Prop :=
  appMode s = modeRef s /\
  showCamera s = isCountingDownRef s /\
  countdown s = hd_error (intervals s) /\
  (flash s = true -> flashTimeouts s <> 0%nat).

Lemma onGesture_overlay (g : GestureType) (palmX : R) (s : AppState) :
  timerConsistent s -> overlayConsistent s ->
  overlayConsistent (onGesture g palmX s).
Proof.
  unfold timerConsistent, overlayConsistent.
  intros Tc (Hm & Hc & Hd & Hf).
  destruct g; unfold onGesture, photoStep, modeStep, enterMode, startCountdown;
    cbn;
    repeat match goal with
    | |- context [if ?c then _ else _] => destruct c eqn:?; cbn
    end;
    repeat split; try assumption; try congruence.
  match goal with
  | H : negb (isCountingDownRef _) = true |- _ =>
      apply negb_true_iff in H; rewrite H in Tc; rewrite Tc; reflexivity
  end.
Qed.

Section Overlays.

Variable lookAt : Object3D -> R -> Vector3 -> Vector3.

Lemma step_overlay (s s' : AppState) (e : Event) :
  timerConsistent s -> overlayConsistent s ->
  step lookAt s e = Some s' -> overlayConsistent s'.
Proof.
  intros Tc Inv Hstep. destruct e as [f | i env | | time]; cbn in Hstep.
  - destruct (visionLoop_outcome f s) as [P | P L | lm rest g P L G | lm rest P L G];
      try discriminate; injection Hstep as <-.
    + exact Inv.
    + exact Inv.
    + apply onGesture_overlay; assumption.
  - injection Hstep as <-.
    unfold timerConsistent in Tc. unfold overlayConsistent in *.
    destruct Inv as (Hm & Hc & Hd & Hf).
    destruct (isCountingDownRef s) eqn:C.
    + destruct Tc as (count & Hi & Hcount).
      destruct (Nat.eq_dec i 0) as [-> | Hn].
      * unfold intervalCallback. rewrite Hi. cbn.
        destruct (count - 1 >? 0)%Z; cbn; repeat split; auto;
          try congruence; try discriminate.
      * destruct (intervalCallback_single i env s count Hi) as (Hne & _).
        rewrite (Hne Hn). rewrite C. auto.
    + rewrite (intervalCallback_none i env s Tc). rewrite C. auto.
  - injection Hstep as <-. unfold overlayConsistent in *.
    destruct Inv as (Hm & Hc & Hd & Hf).
    unfold flashTimeout. destruct (flashTimeouts s) as [| n] eqn:E.
    + cbn. repeat split; auto. intros Hfl. exfalso. apply (Hf Hfl). reflexivity.
    + cbn. repeat split; auto. intros Hfl. discriminate Hfl.
  - injection Hstep as <-. exact Inv.
Qed.

(** X5. In every state the event loop reaches from the start, the overlays are
    consistent with the machine, and exactly one interval is live while a
    countdown runs. *)
Theorem overlays_follow_machine (particles : list Particle) (es : list Event)
    (s : AppState) :
  run lookAt (initialState particles) es = Some s ->
  overlayConsistent s /\ timerConsistent s.
Proof.
  assert (H : forall s0, timerConsistent s0 -> overlayConsistent s0 ->
                         run lookAt s0 es = Some s ->
                         overlayConsistent s /\ timerConsistent s).
  { induction es as [| e es IH]; intros s0 Tc Inv Hrun; cbn in Hrun.
    - injection Hrun as <-. auto.
    - destruct (step lookAt s0 e) as [s1 |] eqn:Hstep; [| discriminate].
      cbn in Hrun. apply (IH s1); auto.
      + eapply step_timerConsistent; eassumption.
      + eapply step_overlay; eassumption. }
  apply H.
  - reflexivity.
  - repeat split. discriminate.
Qed.

End Overlays.

Lemma overlays_follow_machine_witness :
  exists s,
    run lookAtStub (initialState []) (firstn 11 photoScenario) = Some s /\
    overlayConsistent s /\ timerConsistent s.
Proof.
  destruct eleventh_frame_starts as (s & Hrun & _).
  exists s. split; [exact Hrun |].
  exact (overlays_follow_machine lookAtStub [] (firstn 11 photoScenario) s Hrun).
Defined.

(** ** How fast the tree can turn *)

(** The detector reports normalized coordinates: every x and y lies in
    [0, 1]. *)
Definition normalizedLandmark (l : NormalizedLandmark) : Prop :=
  0 <= lx l <= 1 /\ 0 <= ly l <= 1.

Definition normalizedEvent (e : Event) : Prop :=
  match e with
  | VideoEvent f => Forall (Forall normalizedLandmark) (landmarks f)
  | _ => True
  end.

Definition isRender (e : Event) : bool :=
  match e with RenderEvent _ => true | _ => false end.

(** The number of render ticks of a trace. *)
Definition renderTicks (es : list Event) : nat := length (filter isRender es).

Lemma onGesture_speed (g : GestureType) (palmX : R) (s : AppState) :
  0 <= palmX <= 1 ->
  -0.01 <= rotationSpeedRef s <= 0.01 ->
  -0.01 <= rotationSpeedRef (onGesture g palmX s) <= 0.01.
Proof.
  intros Hx Hs.
  destruct g; unfold onGesture, photoStep, modeStep, enterMode, startCountdown;
    cbn;
    repeat match goal with
    | |- context [if ?c then _ else _] => destruct c; cbn
    end; lra.
Qed.

Lemma normalized_wrist (lm : list NormalizedLandmark) (g : GestureType) :
  Forall normalizedLandmark lm -> detectGesture lm = Some g ->
  0 <= lx (landmark lm 0) <= 1.
Proof.
  intros Hn G. destruct lm as [| w rest].
  - unfold detectGesture in G. cbn in G. discriminate.
  - inversion Hn as [| ? ? Hw _]. exact (proj1 Hw).
Qed.

Lemma onGesture_rotation (g : GestureType) (palmX : R) (s : AppState) :
  rotationOffsetRef (onGesture g palmX s) = rotationOffsetRef s /\
  mainGroupRotationY (onGesture g palmX s) = mainGroupRotationY s.
Proof. destruct g; split; machine. Qed.

Section Speed.

Variable lookAt : Object3D -> R -> Vector3 -> Vector3.

Lemma step_rotation (s s' : AppState) (e : Event) :
  step lookAt s e = Some s' ->
  rotationOffsetRef s' =
    (if isRender e then rotationOffsetRef s + rotationSpeedRef s
     else rotationOffsetRef s) /\
  (mainGroupRotationY s = rotationOffsetRef s ->
   mainGroupRotationY s' = rotationOffsetRef s').
Proof.
  intros Hstep. destruct e as [f | i env | | time]; cbn in Hstep; cbn [isRender].
  - destruct (visionLoop_outcome f s) as [P | P L | lm rest g P L G | lm rest P L G];
      try discriminate; injection Hstep as <-.
    + auto.
    + auto.
    + destruct (onGesture_rotation g (lx (landmark lm 0))
                  (set_lastVideoTime (currentTime f) s)) as (-> & ->).
      auto.
  - injection Hstep as <-. unfold intervalCallback.
    destruct (nth_error (intervals s) i) as [count |]; [| auto].
    destruct (count - 1 >? 0)%Z; cbn; auto.
  - injection Hstep as <-. unfold flashTimeout.
    destruct (flashTimeouts s); cbn; auto.
  - injection Hstep as <-. unfold animate. cbn. auto.
Qed.

Lemma step_speed (s s' : AppState) (e : Event) :
  normalizedEvent e ->
  -0.01 <= rotationSpeedRef s <= 0.01 ->
  step lookAt s e = Some s' ->
  -0.01 <= rotationSpeedRef s' <= 0.01.
Proof.
  intros Hn Hs Hstep. destruct e as [f | i env | | time]; cbn in Hstep.
  - destruct (visionLoop_outcome f s) as [P | P L | lm rest g P L G | lm rest P L G];
      try discriminate; injection Hstep as <-.
    + exact Hs.
    + cbn. lra.
    + apply onGesture_speed; [| exact Hs].
      apply (normalized_wrist lm g); [| exact G].
      cbn in Hn. rewrite L in Hn. inversion Hn. assumption.
  - injection Hstep as <-. unfold intervalCallback.
    destruct (nth_error (intervals s) i) as [count |]; [| exact Hs].
    destruct (count - 1 >? 0)%Z; exact Hs.
  - injection Hstep as <-. unfold flashTimeout.
    destruct (flashTimeouts s); exact Hs.
  - injection Hstep as <-. exact Hs.
Qed.

Lemma run_speed (s0 s : AppState) (es : list Event) :
  Forall normalizedEvent es ->
  -0.01 <= rotationSpeedRef s0 <= 0.01 ->
  run lookAt s0 es = Some s ->
  -0.01 <= rotationSpeedRef s <= 0.01 /\
  Rabs (rotationOffsetRef s - rotationOffsetRef s0) <= 0.01 * INR (renderTicks es) /\
  (mainGroupRotationY s0 = rotationOffsetRef s0 ->
   mainGroupRotationY s = rotationOffsetRef s).
Proof.
  revert s0. induction es as [| e es IH]; intros s0 Hn Hs Hrun; cbn in Hrun.
  - injection Hrun as <-. split; [exact Hs |]. split; [| auto].
    unfold renderTicks. cbn. replace (rotationOffsetRef s0 - rotationOffsetRef s0)
      with 0 by ring. rewrite Rabs_R0. lra.
  - destruct (step lookAt s0 e) as [s1 |] eqn:Hstep; [| discriminate].
    cbn in Hrun. inversion Hn as [| ? ? He Hes]. subst.
    pose proof (step_speed s0 s1 e He Hs Hstep) as Hs1.
    destruct (step_rotation s0 s1 e Hstep) as (Ho & Hy).
    destruct (IH s1 Hes Hs1 Hrun) as (Hs' & Hb & Hy').
    split; [exact Hs' |]. split; [| auto].
    unfold renderTicks in *. cbn [filter].
    destruct (isRender e); cbn [length].
    + rewrite S_INR. revert Hb. rewrite Ho. unfold Rabs.
      repeat destruct (Rcase_abs _); lra.
    + rewrite Ho in Hb. exact Hb.
Qed.

(** X6. With normalized landmarks the rotation speed never leaves
    [-0.01, 0.01]; so after any run from the start the accumulated yaw is at
    most 0.01 times the number of render ticks, in either direction, and
    the yaw of the group is the accumulator. *)
Theorem rotation_speed_bounded (particles : list Particle) (es : list Event)
    (s : AppState) :
  Forall normalizedEvent es ->
  run lookAt (initialState particles) es = Some s ->
  -0.01 <= rotationSpeedRef s <= 0.01 /\
  Rabs (rotationOffsetRef s) <= 0.01 * INR (renderTicks es) /\
  mainGroupRotationY s = rotationOffsetRef s.
Proof.
  intros Hn Hrun.
  destruct (run_speed (initialState particles) s es Hn) as (Hs & Hb & Hy);
    [cbn; lra | exact Hrun |].
  split; [exact Hs |]. split; [| apply Hy; reflexivity].
  cbn in Hb. replace (rotationOffsetRef s) with (rotationOffsetRef s - 0) by ring.
  exact Hb.
Qed.

End Speed.

Example rotationOffset_open_left :
  exists s,
    run lookAtStub (initialState []) [VideoEvent (handFrame (openHand 0) 0)]
      = Some s /\
    rotationSpeedRef s = (0 - 0.5) * 0.02.
Proof.
  run_video. eexists. split; [reflexivity |]. reflexivity.
Qed.

Lemma rotation_speed_bounded_witness :
  let es := [VideoEvent (handFrame (openHand 0) 0)] in
  Forall normalizedEvent es /\
  exists s,
    run lookAtStub (initialState []) es = Some s /\
    -0.01 <= rotationSpeedRef s <= 0.01.
Proof.
  cbv zeta.
  assert (Hn : Forall normalizedEvent [VideoEvent (handFrame (openHand 0) 0)]).
  { apply Forall_cons; [| apply Forall_nil]. cbn [normalizedEvent landmarks handFrame].
    apply Forall_cons; [| apply Forall_nil]. unfold openHand, hand.
    repeat (apply Forall_cons;
            [unfold normalizedLandmark; cbn [lx ly pt]; lra |]).
    apply Forall_nil. }
  split; [exact Hn |].
  destruct rotationOffset_open_left as (s & Hrun & _).
  exists s. split; [exact Hrun |].
  exact (proj1 (rotation_speed_bounded lookAtStub [] _ s Hn Hrun)).
Defined.

(** ** The countdown *)

(** X7. A countdown lasts three callbacks of its interval.  From a state whose
    only live interval holds 3, the first callback shows 2 and the second
    shows 1, both leaving the registry alone; the third clears the display,
    calls [capturePhoto] with what it finds then, turns the flash on, hides
    the camera, removes the interval and leaves the machine idle with a
    debounce count of zero. *)
Theorem countdown_three_callbacks
    (lookAt : Object3D -> R -> Vector3 -> Vector3)
    (s : AppState) (e1 e2 e3 : CaptureEnv) :
  intervals s = [3%Z] ->
  let s1 := intervalCallback 0 e1 s in
  let s2 := intervalCallback 0 e2 s1 in
  let s3 := intervalCallback 0 e3 s2 in
  run lookAt s [IntervalEvent 0 e1; IntervalEvent 0 e2; IntervalEvent 0 e3]
    = Some s3 /\
  (countdown s1 = Some 2%Z /\ particlesRef s1 = particlesRef s) /\
  (countdown s2 = Some 1%Z /\ particlesRef s2 = particlesRef s) /\
  countdown s3 = None /\
  particlesRef s3 = capturePhoto e3 (particlesRef s) /\
  isCountingDownRef s3 = false /\ intervals s3 = [] /\
  photoModeDebounceRef s3 = 0%Z /\ flash s3 = true /\ showCamera s3 = false.
Proof.
  intros Hi. cbv zeta. split; [reflexivity |].
  destruct (intervalCallback_single 0 e1 s 3 Hi) as (_ & H1 & _).
  destruct (H1 eq_refl ltac:(lia)) as (Hi1 & Hc1 & _ & _ & Hp1).
  destruct (intervalCallback_single 0 e2 _ _ Hi1) as (_ & H2 & _).
  destruct (H2 eq_refl ltac:(lia)) as (Hi2 & Hc2 & _ & _ & Hp2).
  destruct (intervalCallback_single 0 e3 _ _ Hi2) as (_ & _ & H3).
  destruct (H3 eq_refl ltac:(lia)) as (Hi3 & Hc3 & Hcd & Hd & Hp3 & Hf & Hs).
  repeat split; try assumption; try congruence.
Qed.

Lemma countdown_three_callbacks_witness :
  let s := startCountdown (initialState []) in
  intervals s = [3%Z] /\
  particlesRef
    (intervalCallback 0 photoEnv
       (intervalCallback 0 photoEnv (intervalCallback 0 photoEnv s)))
  = capturePhoto photoEnv (particlesRef s).
Proof.
  cbv zeta. split; [reflexivity |].
  exact (proj1 (proj2 (proj2 (proj2 (proj2
           (countdown_three_callbacks lookAtStub
              (startCountdown (initialState [])) photoEnv photoEnv photoEnv
              eq_refl)))))).
Defined.

(** ** The photo a pinch selects *)

(** The distance [animate] compares: from the world position of the mesh to
    the camera. *)
Definition cameraDistance (yaw : R) (p : Particle) : R :=
  distanceTo (getWorldPosition yaw (mesh p)) cameraPosition.

Lemma findNearestPhoto_scan (yaw : R) (ps : list Particle) :
  forall (i : nat) (nearestPhoto : option nat) (minDist : option R),
    let r := findNearestPhoto yaw ps i nearestPhoto minDist in
    (r = nearestPhoto /\
     forall k q, nth_error ps k = Some q -> type q = PHOTO ->
                 exists m, minDist = Some m /\ m <= cameraDistance yaw q)
    \/
    (exists k p,
        r = Some (i + k)%nat /\ nth_error ps k = Some p /\ type p = PHOTO /\
        (forall m, minDist = Some m -> cameraDistance yaw p < m) /\
        forall k' q, nth_error ps k' = Some q -> type q = PHOTO ->
                     cameraDistance yaw p <= cameraDistance yaw q /\
                     ((k' < k)%nat -> cameraDistance yaw p < cameraDistance yaw q)).
Proof.
  induction ps as [| p rest IH]; intros i nearestPhoto minDist; cbv zeta.
  - left. split; [reflexivity |]. intros k q Hk. destruct k; discriminate.
  - cbn [findNearestPhoto].
    destruct (ParticleType_eqb (type p) PHOTO) eqn:Tp.
    + apply ParticleType_eqb_eq in Tp.
      fold (cameraDistance yaw p).
      assert (Hcase :
        (match minDist with None => true | Some m => Rltb (cameraDistance yaw p) m end
         = true /\ forall m, minDist = Some m -> cameraDistance yaw p < m)
        \/
        (match minDist with None => true | Some m => Rltb (cameraDistance yaw p) m end
         = false /\ exists m, minDist = Some m /\ m <= cameraDistance yaw p)).
      { destruct minDist as [m |].
        - destruct (Rltb (cameraDistance yaw p) m) eqn:E.
          + left. split; [reflexivity |]. intros m' Hm. injection Hm as <-.
            apply Rltb_true. exact E.
          + right. split; [reflexivity |]. exists m. split; [reflexivity |].
            apply Rltb_false in E. lra.
        - left. split; [reflexivity |]. intros m' Hm. discriminate. }
      destruct Hcase as [(-> & Hlt) | (-> & m & Hm & Hle)].
      * destruct (IH (S i) (Some i) (Some (cameraDistance yaw p)))
          as [(Hr & Hall) | (k & p' & Hr & Hk & Tp' & Hlt' & Hmin)].
        -- right. exists 0%nat, p. rewrite Nat.add_0_r.
           split; [exact Hr |]. split; [reflexivity |]. split; [exact Tp |].
           split; [exact Hlt |].
           intros k' q Hq Tq. destruct k' as [| k'].
           ++ injection Hq as <-. split; [lra | lia].
           ++ destruct (Hall k' q Hq Tq) as (m & Hm & Hle).
              injection Hm as <-. split; [exact Hle | lia].
        -- right. exists (S k), p'.
           replace (i + S k)%nat with (S i + k)%nat by lia.
           split; [exact Hr |]. split; [exact Hk |]. split; [exact Tp' |].
           pose proof (Hlt' _ eq_refl) as Hpp.
           split.
           ++ intros m Hm. pose proof (Hlt m Hm). lra.
           ++ intros k' q Hq Tq. destruct k' as [| k'].
              ** injection Hq as <-. split; [lra | intros _; exact Hpp].
              ** destruct (Hmin k' q Hq Tq) as (H1 & H2).
                 split; [exact H1 | intros Hk'; apply H2; lia].
      * destruct (IH (S i) nearestPhoto minDist)
          as [(Hr & Hall) | (k & p' & Hr & Hk & Tp' & Hlt' & Hmin)].
        -- left. split; [exact Hr |].
           intros k' q Hq Tq. destruct k' as [| k'].
           ++ injection Hq as <-. exists m. auto.
           ++ exact (Hall k' q Hq Tq).
        -- right. exists (S k), p'.
           replace (i + S k)%nat with (S i + k)%nat by lia.
           split; [exact Hr |]. split; [exact Hk |]. split; [exact Tp' |].
           split; [exact Hlt' |].
           pose proof (Hlt' m Hm) as Hpm.
           intros k' q Hq Tq. destruct k' as [| k'].
           ++ injection Hq as <-. split; [lra | intros _; lra].
           ++ destruct (Hmin k' q Hq Tq) as (H1 & H2).
              split; [exact H1 | intros Hk'; apply H2; lia].
    + assert (Tn : type p <> PHOTO).
      { intros E. apply ParticleType_eqb_eq in E. congruence. }
      destruct (IH (S i) nearestPhoto minDist)
        as [(Hr & Hall) | (k & p' & Hr & Hk & Tp' & Hlt' & Hmin)].
      * left. split; [exact Hr |].
        intros k' q Hq Tq. destruct k' as [| k'].
        -- injection Hq as <-. contradiction.
        -- exact (Hall k' q Hq Tq).
      * right. exists (S k), p'.
        replace (i + S k)%nat with (S i + k)%nat by lia.
        split; [exact Hr |]. split; [exact Hk |]. split; [exact Tp' |].
        split; [exact Hlt' |].
        intros k' q Hq Tq. destruct k' as [| k'].
        -- injection Hq as <-. contradiction.
        -- destruct (Hmin k' q Hq Tq) as (H1 & H2).
           split; [exact H1 | intros Hk'; apply H2; lia].
Qed.

(** X8. The search of [animate] finds nothing exactly when the registry holds no
    photo; otherwise it finds a photo whose distance to the camera is least
    among the photos, the first such in registry order.  So a tick focuses
    at most one particle. *)
Theorem nearest_photo_selection (yaw : R) (ps : list Particle) :
  match findNearestPhoto yaw ps 0 None None with
  | None => forall k q, nth_error ps k = Some q -> type q <> PHOTO
  | Some j =>
      exists p,
        nth_error ps j = Some p /\ type p = PHOTO /\
        forall k q, nth_error ps k = Some q -> type q = PHOTO ->
                    cameraDistance yaw p <= cameraDistance yaw q /\
                    ((k < j)%nat -> cameraDistance yaw p < cameraDistance yaw q)
  end /\
  forall s i j p q,
    isFocused s i p = true -> isFocused s j q = true -> i = j.
Proof.
  split.
  - destruct (findNearestPhoto_scan yaw ps 0 None None)
      as [(Hr & Hall) | (k & p & Hr & Hk & Tp & _ & Hmin)].
    + rewrite Hr. intros k q Hq Tq.
      destruct (Hall k q Hq Tq) as (m & Hm & _). discriminate.
    + rewrite Hr. cbn [Nat.add]. exists p. auto.
  - intros s i j p q Hi Hj. unfold isFocused in Hi, Hj.
    apply andb_true_iff in Hi, Hj. destruct Hi as (Hi & _), Hj as (Hj & _).
    apply andb_true_iff in Hi, Hj. destruct Hi as (_ & Hi), Hj as (_ & Hj).
    unfold isNearest in Hi, Hj. destruct (focusedPhoto s) as [n |];
      [| discriminate].
    apply Nat.eqb_eq in Hi, Hj. congruence.
Qed.

(** ** The registry over a run *)

(** What a particle is made with and never loses. *)
Definition sameIdentity (p p' : Particle) : Prop :=
  type p' = type p /\ treePos p' = treePos p /\
  rotationSpeed p' = rotationSpeed p /\ isPhoto p' = isPhoto p /\
  originalScale p' = originalScale p.

Lemma sameIdentity_refl (p : Particle) : sameIdentity p p.
Proof. repeat split. Qed.

Lemma sameIdentity_trans (p q r : Particle) :
  sameIdentity p q -> sameIdentity q r -> sameIdentity p r.
Proof. unfold sameIdentity. intuition congruence. Qed.

Lemma animateParticle_identity (lookAt : Object3D -> R -> Vector3 -> Vector3)
    (yaw time : R) (currentMode : AppMode) (currentGesture : GestureType)
    (nearestPhoto : option nat) (i : nat) (p : Particle) :
  sameIdentity p (animateParticle lookAt yaw time currentMode currentGesture
                                  nearestPhoto i p).
Proof.
  unfold animateParticle, behaviour, focusBehaviour, treeBehaviour,
    scatterBehaviour.
  repeat match goal with
  | |- context [if ?c then _ else _] => destruct c
  end; repeat split.
Qed.

Lemma capturePhoto_length (env : CaptureEnv) (particles : list Particle) :
  (length particles <= length (capturePhoto env particles))%nat.
Proof.
  unfold capturePhoto. destruct (videoRef env); [| lia].
  destruct (negb (context2d env)); [lia |].
  destruct (treeDraws env) as [[u1 u2] u3]. rewrite length_app. lia.
Qed.

Section Registry.

Variable lookAt : Object3D -> R -> Vector3 -> Vector3.

Lemma step_registry (s s' : AppState) (e : Event) :
  step lookAt s e = Some s' ->
  (length (particlesRef s) <= length (particlesRef s'))%nat /\
  forall i p, nth_error (particlesRef s) i = Some p ->
              exists p', nth_error (particlesRef s') i = Some p' /\
                         sameIdentity p p'.
Proof.
  intros Hstep. destruct e as [f | k env | | time]; cbn in Hstep.
  - assert (Hp : particlesRef s' = particlesRef s).
    { destruct (visionLoop_outcome f s); try discriminate;
        injection Hstep as <-; try reflexivity.
      rewrite onGesture_particles. reflexivity. }
    rewrite Hp. split; [lia |]. intros i p Hi. exists p.
    split; [exact Hi | apply sameIdentity_refl].
  - injection Hstep as <-. unfold intervalCallback.
    destruct (nth_error (intervals s) k) as [count |];
      [| split; [lia |]; intros i p Hi; exists p;
         split; [exact Hi | apply sameIdentity_refl]].
    destruct (count - 1 >? 0)%Z; cbn.
    + split; [lia |]. intros i p Hi. exists p.
      split; [exact Hi | apply sameIdentity_refl].
    + split; [apply capturePhoto_length |]. intros i p Hi. exists p.
      split; [apply capturePhoto_keeps; exact Hi | apply sameIdentity_refl].
  - injection Hstep as <-.
    destruct (flashTimeout_photo s) as (_ & _ & _ & _ & ->).
    split; [lia |]. intros i p Hi. exists p.
    split; [exact Hi | apply sameIdentity_refl].
  - injection Hstep as <-. unfold animate. cbn. split.
    + rewrite forEachIndexed_length. lia.
    + intros i p Hi. rewrite nth_error_forEachIndexed, Hi. cbn.
      eexists. split; [reflexivity |]. apply animateParticle_identity.
Qed.

(** X9. The registry only grows, and particles keep their place and their
    identity.  Over any run of the event loop the registry never gets
    shorter, and the particle at an index stays at that index with the type,
    the tree position, the spin rates and the baseline scale it was created
    with. *)
Theorem registry_append_only (s s' : AppState) (es : list Event) :
  run lookAt s es = Some s' ->
  (length (particlesRef s) <= length (particlesRef s'))%nat /\
  forall i p, nth_error (particlesRef s) i = Some p ->
              exists p', nth_error (particlesRef s') i = Some p' /\
                         sameIdentity p p'.
Proof.
  revert s. induction es as [| e es IH]; intros s Hrun; cbn in Hrun.
  - injection Hrun as <-. split; [lia |]. intros i p Hi. exists p.
    split; [exact Hi | apply sameIdentity_refl].
  - destruct (step lookAt s e) as [s1 |] eqn:Hstep; [| discriminate].
    cbn in Hrun.
    destruct (step_registry s s1 e Hstep) as (Hl1 & Hk1).
    destruct (IH s1 Hrun) as (Hl & Hk).
    split; [lia |]. intros i p Hi.
    destruct (Hk1 i p Hi) as (p1 & Hi1 & Hs1).
    destruct (Hk i p1 Hi1) as (p' & Hi' & Hs').
    exists p'. split; [exact Hi' |].
    apply (sameIdentity_trans p p1 p'); assumption.
Qed.

End Registry.

Lemma registry_append_only_witness :
  exists s',
    run lookAtStub (initialState []) photoScenario = Some s' /\
    (length (particlesRef (initialState [])) <= length (particlesRef s'))%nat.
Proof.
  destruct photoScenario_one_photo as (s' & p & Hrun & _).
  exists s'. split; [exact Hrun |].
  exact (proj1 (registry_append_only lookAtStub (initialState []) s'
                  photoScenario Hrun)).
Defined.

(** ** Staying near the scatter sphere *)

Lemma dot_le_norms (a b : Vector3) :
  vx a * vx b + vy a * vy b + vz a * vz b <= vlength a * vlength b.
Proof.
  destruct a as [a1 a2 a3], b as [b1 b2 b3]. unfold vlength. cbn [vx vy vz].
  set (ab := a1 * b1 + a2 * b2 + a3 * b3).
  set (aa := a1 * a1 + a2 * a2 + a3 * a3).
  set (bb := b1 * b1 + b2 * b2 + b3 * b3).
  assert (Haa : 0 <= aa).
  { unfold aa. pose proof (Rle_0_sqr a1). pose proof (Rle_0_sqr a2).
    pose proof (Rle_0_sqr a3). unfold Rsqr in *. lra. }
  assert (Hbb : 0 <= bb).
  { unfold bb. pose proof (Rle_0_sqr b1). pose proof (Rle_0_sqr b2).
    pose proof (Rle_0_sqr b3). unfold Rsqr in *. lra. }
  assert (Hcs : ab * ab <= aa * bb).
  { unfold ab, aa, bb.
    pose proof (Rle_0_sqr (a1 * b2 - a2 * b1)) as H1.
    pose proof (Rle_0_sqr (a1 * b3 - a3 * b1)) as H2.
    pose proof (Rle_0_sqr (a2 * b3 - a3 * b2)) as H3.
    unfold Rsqr in H1, H2, H3. nra. }
  rewrite <- sqrt_mult by assumption.
  destruct (Rle_dec ab 0) as [Hneg | Hpos].
  - apply Rle_trans with 0; [exact Hneg | apply sqrt_pos].
  - rewrite <- (sqrt_square ab) by lra.
    apply sqrt_le_1_alt. exact Hcs.
Qed.

Lemma vlength_nonneg (a : Vector3) : 0 <= vlength a.
Proof. apply sqrt_pos. Qed.

Lemma vlength_sqr (a : Vector3) :
  vlength a * vlength a = vx a * vx a + vy a * vy a + vz a * vz a.
Proof. unfold vlength. apply sqrt_sqrt. nra. Qed.

Lemma vlength_triangle (a b : Vector3) :
  vlength (add a b) <= vlength a + vlength b.
Proof.
  pose proof (vlength_nonneg a) as Ha. pose proof (vlength_nonneg b) as Hb.
  pose proof (vlength_nonneg (add a b)) as Hab.
  pose proof (vlength_sqr a) as Sa. pose proof (vlength_sqr b) as Sb.
  pose proof (vlength_sqr (add a b)) as Sab.
  pose proof (dot_le_norms a b) as Hd.
  apply Rnot_lt_le. intros Hlt.
  assert (H : 0 < (vlength (add a b) - (vlength a + vlength b))
                  * (vlength (add a b) + (vlength a + vlength b)))
    by (apply Rmult_lt_0_compat; lra).
  assert (H' : 0 < vlength (add a b) * vlength (add a b)
                   - vlength a * vlength a
                   - 2 * (vlength a * vlength b)
                   - vlength b * vlength b).
  { replace (vlength (add a b) * vlength (add a b) - vlength a * vlength a
             - 2 * (vlength a * vlength b) - vlength b * vlength b)
      with ((vlength (add a b) - (vlength a + vlength b))
            * (vlength (add a b) + (vlength a + vlength b))) by ring.
    exact H. }
  rewrite Sab, Sa, Sb in H'. unfold add in H'. cbn [vx vy vz] in H'.
  lra.
Qed.

(** A particle is near the sphere if it is within the scatter radius or its
    next step takes it there. *)
Definition nearSphere (p : Particle) : Prop :=
  vlength (scatterPos p) <= SCATTER_RADIUS \/
  vlength (add (scatterPos p) (velocity p)) <= SCATTER_RADIUS.

Lemma add_negate_cancel (a v : Vector3) : add (add a v) (negate v) = a.
Proof. destruct a, v. unfold add, negate. cbn. f_equal; ring. Qed.

Lemma animateParticle_nearSphere (lookAt : Object3D -> R -> Vector3 -> Vector3)
    (yaw time : R) (currentMode : AppMode) (currentGesture : GestureType)
    (nearestPhoto : option nat) (i : nat) (p : Particle) :
  nearSphere p ->
  nearSphere (animateParticle lookAt yaw time currentMode currentGesture
                              nearestPhoto i p).
Proof.
  intros Hn. unfold nearSphere in *.
  destruct (animateParticle_data lookAt yaw time currentMode currentGesture
              nearestPhoto i p) as (_ & _ & Hs & Hv & _).
  rewrite Hs, Hv. unfold behaviour.
  destruct (GestureType_eqb currentGesture PINCH_ZOOM && isNearest nearestPhoto i
            && ParticleType_eqb (type p) PHOTO).
  - destruct (focusBehaviour_data lookAt yaw p) as (_ & _ & _ & -> & -> & _).
    exact Hn.
  - destruct (AppMode_eqb currentMode TREE
              && negb (GestureType_eqb currentGesture PINCH_ZOOM)).
    + destruct (treeBehaviour_data time p) as (_ & _ & _ & -> & -> & _).
      exact Hn.
    + destruct (scatterBehaviour_data p) as (_ & _ & _ & -> & -> & _).
      destruct (Rgtb (vlength (add (scatterPos p) (velocity p))) SCATTER_RADIUS)
        eqn:E.
      * right. rewrite add_negate_cancel.
        destruct Hn as [Hin | Hnext]; [exact Hin |].
        apply Rgtb_true in E. lra.
      * left. apply Rgtb_false in E. lra.
Qed.

Section Containment.

Variable lookAt : Object3D -> R -> Vector3 -> Vector3.

Lemma step_nearSphere (s s' : AppState) (e : Event) (i : nat) (p : Particle) :
  step lookAt s e = Some s' -> nth_error (particlesRef s) i = Some p ->
  nearSphere p ->
  exists p', nth_error (particlesRef s') i = Some p' /\ nearSphere p'.
Proof.
  intros Hstep Hp Hn. destruct e as [f | k env | | time]; cbn in Hstep.
  - exists p. split; [| exact Hn].
    destruct (visionLoop_outcome f s); try discriminate;
      injection Hstep as <-; try exact Hp.
    rewrite onGesture_particles. exact Hp.
  - injection Hstep as <-. exists p. split; [| exact Hn].
    unfold intervalCallback.
    destruct (nth_error (intervals s) k) as [count |]; [| exact Hp].
    destruct (count - 1 >? 0)%Z; cbn; [exact Hp |].
    apply capturePhoto_keeps. exact Hp.
  - injection Hstep as <-. exists p. split; [| exact Hn].
    destruct (flashTimeout_photo s) as (_ & _ & _ & _ & ->). exact Hp.
  - injection Hstep as <-. unfold animate. cbn.
    rewrite nth_error_forEachIndexed, Hp. cbn.
    eexists. split; [reflexivity |].
    apply animateParticle_nearSphere. exact Hn.
Qed.

(** X10. A particle that starts within the scatter radius never escapes.  Over
    any run, at every moment it is within the radius or one step from
    re-entering it, so its distance from the center is at most the radius
    plus the magnitude of its velocity. *)
Theorem scatter_containment (s s' : AppState) (es : list Event)
    (i : nat) (p : Particle) :
  run lookAt s es = Some s' -> nth_error (particlesRef s) i = Some p ->
  vlength (scatterPos p) <= SCATTER_RADIUS ->
  exists p',
    nth_error (particlesRef s') i = Some p' /\ nearSphere p' /\
    vlength (scatterPos p') <= SCATTER_RADIUS + vlength (velocity p).
Proof.
  intros Hrun Hp Hin.
  assert (Hnear : forall es s s' p,
    run lookAt s es = Some s' -> nth_error (particlesRef s) i = Some p ->
    nearSphere p ->
    exists p', nth_error (particlesRef s') i = Some p' /\ nearSphere p').
  { clear. induction es as [| e es IH]; intros s s' p Hrun Hp Hn; cbn in Hrun.
    - injection Hrun as <-. exists p. auto.
    - destruct (step lookAt s e) as [s1 |] eqn:Hstep; [| discriminate].
      cbn in Hrun.
      destruct (step_nearSphere s s1 e i p Hstep Hp Hn) as (p1 & Hp1 & Hn1).
      exact (IH s1 s' p1 Hrun Hp1 Hn1). }
  destruct (Hnear es s s' p Hrun Hp (or_introl Hin)) as (p' & Hp' & Hn').
  destruct (run_velocity lookAt s s' es i p Hrun Hp) as (p'' & Hp'' & Hv).
  rewrite Hp' in Hp''. injection Hp'' as <-.
  exists p'. split; [exact Hp' |]. split; [exact Hn' |].
  assert (Hmag : vlength (velocity p') = vlength (velocity p)).
  { destruct Hv as [-> | ->]; [reflexivity | apply vlength_negate]. }
  rewrite <- Hmag.
  pose proof (vlength_nonneg (velocity p')) as Hpos.
  destruct Hn' as [Hi' | Hnext]; [lra |].
  pose proof (vlength_triangle (add (scatterPos p') (velocity p'))
                               (negate (velocity p'))) as Ht.
  rewrite add_negate_cancel, vlength_negate in Ht. lra.
Qed.

End Containment.

Lemma boundaryParticle_inside : vlength (scatterPos boundaryParticle) <= SCATTER_RADIUS.
Proof.
  unfold boundaryParticle. cbn [scatterPos]. rewrite vlength_x_axis.
  unfold SCATTER_RADIUS. abs_lra.
Qed.

Lemma scatter_containment_witness :
  let s := initialState [boundaryParticle] in
  run lookAtStub s [RenderEvent 0] = Some (animate lookAtStub 0 s) /\
  nth_error (particlesRef s) 0 = Some boundaryParticle /\
  vlength (scatterPos boundaryParticle) <= SCATTER_RADIUS /\
  exists p',
    nth_error (particlesRef (animate lookAtStub 0 s)) 0 = Some p' /\
    nearSphere p'.
Proof.
  cbv zeta. split; [reflexivity |]. split; [reflexivity |].
  split; [exact boundaryParticle_inside |].
  destruct (scatter_containment lookAtStub (initialState [boundaryParticle])
              (animate lookAtStub 0 (initialState [boundaryParticle]))
              [RenderEvent 0] 0 boundaryParticle eq_refl eq_refl
              boundaryParticle_inside) as (p' & Hp' & Hn & _).
  exists p'. split; [exact Hp' | exact Hn].
Defined.

(** ** Where particles are placed *)

(** The distance of a point from the vertical axis of the tree. *)
Definition horizontalRadius (v : Vector3) : R :=
  sqrt (vx v * vx v + vz v * vz v).

(** [Math.cbrt], for the non-negative numbers the program gives it. *)
Definition cbrt (u : R) : R := if Reqb u 0 then 0 else Rpower u (/ 3).

(** The scatter position the particle loop draws, with its three
    [Math.random()] draws as arguments; the loop also copies it to the
    position of the mesh. *)
Definition initialScatterPos (u1 u2 u3 : R) : Vector3 :=
  let sr := SCATTER_RADIUS * cbrt u1 in
  let sPhi := acos (2 * u2 - 1) in
  let sTheta := 2 * PI * u3 in
  mkVector3 (sr * sin sPhi * cos sTheta)
            (sr * sin sPhi * sin sTheta)
            (sr * cos sPhi).

Lemma Rpower_unit (u e : R) : 0 < u <= 1 -> 0 < e -> 0 < Rpower u e <= 1.
Proof.
  intros Hu He. unfold Rpower. split; [apply exp_pos |].
  destruct (Req_dec u 1) as [-> | Hne].
  - rewrite ln_1, Rmult_0_r, exp_0. lra.
  - assert (Hln : ln u < 0).
    { rewrite <- ln_1. apply ln_increasing; lra. }
    rewrite <- exp_0. left. apply exp_increasing. nra.
Qed.

Lemma pow09_unit (u : R) : 0 <= u <= 1 -> 0 <= pow09 u <= 1.
Proof.
  intros Hu. unfold pow09. destruct (Reqb u 0) eqn:E; [lra |].
  apply Reqb_false in E.
  destruct (Rpower_unit u 0.9); lra.
Qed.

Lemma cbrt_unit (u : R) : 0 <= u <= 1 -> 0 <= cbrt u <= 1.
Proof.
  intros Hu. unfold cbrt. destruct (Reqb u 0) eqn:E; [lra |].
  apply Reqb_false in E.
  destruct (Rpower_unit u (/ 3)); lra.
Qed.

Lemma cos2_sin2_scaled (t r : R) :
  cos t * r * (cos t * r) + sin t * r * (sin t * r) = r * r.
Proof.
  pose proof (sin2_cos2 t) as H. unfold Rsqr in H.
  replace (cos t * r * (cos t * r) + sin t * r * (sin t * r))
    with (r * r * (sin t * sin t + cos t * cos t)) by ring.
  rewrite H. ring.
Qed.

(** X11. Every position [getTreePos] returns lies in the cone of the tree: its
    height is between -27.5 and 27.5, and its distance from the axis is at
    most the radius of the cone at that height, [22 * (1 - (y + 27.5) / 55)],
    and at least a fifth of it. *)
Theorem getTreePos_in_cone (u1 u2 u3 : R) :
  0 <= u1 <= 1 -> 0 <= u2 <= 1 ->
  let q := getTreePos u1 u2 u3 in
  let maxR := TREE_BASE_RADIUS * (1 - (vy q + TREE_HEIGHT / 2) / TREE_HEIGHT) in
  - (TREE_HEIGHT / 2) <= vy q <= TREE_HEIGHT / 2 /\
  0 <= maxR <= TREE_BASE_RADIUS /\
  0.2 * maxR <= horizontalRadius q <= maxR.
Proof.
  intros H1 H2. cbv zeta.
  pose proof (pow09_unit u1 H1) as Hh.
  assert (Hs : 0 <= sqrt u2 <= 1).
  { split; [apply sqrt_pos |]. rewrite <- sqrt_1. apply sqrt_le_1_alt. lra. }
  unfold getTreePos, horizontalRadius, TREE_HEIGHT, TREE_BASE_RADIUS.
  cbn [vx vy vz]. set (h := pow09 u1) in *. set (w := sqrt u2) in *.
  rewrite cos2_sin2_scaled.
  replace ((h * 55 - 55 / 2 + 55 / 2) / 55) with h by field.
  assert (Hr : 0 <= 22 * (1.0 - h) * (0.2 + 0.8 * w)) by nra.
  rewrite sqrt_square by exact Hr.
  repeat split; nra.
Qed.

Lemma getTreePos_in_cone_witness :
  let q := getTreePos 0.25 0.25 0 in
  0 <= 0.25 <= 1 /\ - (TREE_HEIGHT / 2) <= vy q <= TREE_HEIGHT / 2.
Proof.
  cbv zeta. split; [lra |].
  exact (proj1 (getTreePos_in_cone 0.25 0.25 0 ltac:(lra) ltac:(lra))).
Defined.

(** X12. The scatter position a particle starts with is within the scatter
    sphere: its distance from the center is [70 * cbrt(u1)], at most 70. *)
Theorem initialScatterPos_in_sphere (u1 u2 u3 : R) :
  0 <= u1 <= 1 ->
  vlength (initialScatterPos u1 u2 u3) = SCATTER_RADIUS * cbrt u1 /\
  vlength (initialScatterPos u1 u2 u3) <= SCATTER_RADIUS.
Proof.
  intros H1. pose proof (cbrt_unit u1 H1) as Hc.
  assert (E : vlength (initialScatterPos u1 u2 u3) = SCATTER_RADIUS * cbrt u1).
  { unfold vlength, initialScatterPos, SCATTER_RADIUS. cbn [vx vy vz].
    set (sr := 70 * cbrt u1). set (p := acos (2 * u2 - 1)). set (t := 2 * PI * u3).
    pose proof (sin2_cos2 p) as Hp. pose proof (sin2_cos2 t) as Ht.
    unfold Rsqr in Hp, Ht.
    replace (sr * sin p * cos t * (sr * sin p * cos t)
             + sr * sin p * sin t * (sr * sin p * sin t)
             + sr * cos p * (sr * cos p))
      with (sr * sr * (sin p * sin p * (sin t * sin t + cos t * cos t)
                       + cos p * cos p)) by ring.
    rewrite Ht, Rmult_1_r, Hp, Rmult_1_r.
    apply sqrt_square. unfold sr. lra. }
  split; [exact E |]. rewrite E. unfold SCATTER_RADIUS. lra.
Qed.

Lemma initialScatterPos_in_sphere_witness :
  0 <= 0.5 <= 1 /\ vlength (initialScatterPos 0.5 0.5 0.5) <= SCATTER_RADIUS.
Proof.
  split; [lra |].
  exact (proj2 (initialScatterPos_in_sphere 0.5 0.5 0.5 ltac:(lra))).
Defined.

Lemma vlength_multiplyScalar (v : Vector3) (k : R) :
  0 <= k -> vlength (multiplyScalar v k) = k * vlength v.
Proof.
  intros Hk. unfold vlength, multiplyScalar. cbn [vx vy vz].
  replace (vx v * k * (vx v * k) + vy v * k * (vy v * k) + vz v * k * (vz v * k))
    with ((k * k) * (vx v * vx v + vy v * vy v + vz v * vz v)) by ring.
  rewrite sqrt_mult_alt by nra. rewrite sqrt_square by exact Hk. reflexivity.
Qed.

Lemma vlength_normalize (v : Vector3) : vlength (normalize v) <= 1.
Proof.
  unfold normalize. pose proof (vlength_nonneg v) as Hv.
  destruct (Reqb (vlength v) 0) eqn:E.
  - apply Reqb_true in E.
    rewrite vlength_multiplyScalar by lra. rewrite E. lra.
  - apply Reqb_false in E.
    assert (Hk : 0 <= 1 / vlength v).
    { unfold Rdiv. rewrite Rmult_1_l. left. apply Rinv_0_lt_compat. lra. }
    rewrite vlength_multiplyScalar by exact Hk.
    right. field. exact E.
Qed.

Lemma horizontalRadius_le_vlength (v : Vector3) : horizontalRadius v <= vlength v.
Proof.
  unfold horizontalRadius, vlength. apply sqrt_le_1_alt.
  pose proof (Rle_0_sqr (vy v)) as H. unfold Rsqr in H. lra.
Qed.

(** X13. Where a captured photo is put.  With a height draw in [0, 1] and unit
    directions, the particle a successful capture appends has its tree
    position within 17.6 of the axis and at a height between -22 and 22,
    starts its scatter motion on the scatter sphere (distance 70, so it is
    within the radius) at speed 0.08, and starts invisible at the origin of
    the group with scale 0 and baseline scale 1.5. *)
Theorem capturePhoto_placement (env : CaptureEnv) (particles : list Particle)
    (video : HTMLVideoElement) :
  videoRef env = Some video -> context2d env = true ->
  0 <= heightDraw env <= 1 ->
  vlength (scatterDirection env) = 1 -> vlength (velocityDirection env) = 1 ->
  exists p,
    capturePhoto env particles = particles ++ [p] /\
    horizontalRadius (treePos p) <= TREE_BASE_RADIUS * 0.8 /\
    - (TREE_HEIGHT * 0.4) <= vy (treePos p) <= TREE_HEIGHT * 0.4 /\
    vlength (scatterPos p) = SCATTER_RADIUS /\
    vlength (velocity p) = 0.08 /\
    position (mesh p) = zero3 /\ scale (mesh p) = setScalar 0 /\
    originalScale p = Some 1.5.
Proof.
  intros Hv Hc Hh Hs Hvel. unfold capturePhoto. rewrite Hv, Hc. cbn [negb].
  destruct (treeDraws env) as [[u1 u2] u3].
  eexists. split; [reflexivity |]. cbn [treePos scatterPos velocity mesh
    position scale originalScale vx vy vz].
  split; [| split; [| split; [| split]]].
  - set (g := getTreePos u1 u2 u3).
    set (t := multiplyScalar (normalize g) (TREE_BASE_RADIUS * 0.8)).
    change (horizontalRadius (mkVector3 (vx t) ((heightDraw env - 0.5) * TREE_HEIGHT * 0.8) (vz t)))
      with (horizontalRadius t).
    apply Rle_trans with (vlength t); [apply horizontalRadius_le_vlength |].
    unfold t. rewrite vlength_multiplyScalar by (unfold TREE_BASE_RADIUS; lra).
    pose proof (vlength_normalize g). unfold TREE_BASE_RADIUS. nra.
  - unfold TREE_HEIGHT. lra.
  - rewrite vlength_multiplyScalar by (unfold SCATTER_RADIUS; lra).
    rewrite Hs. ring.
  - rewrite vlength_multiplyScalar by lra. rewrite Hvel. ring.
  - repeat split.
Qed.

Lemma unit_x_axis : vlength (mkVector3 1 0 0) = 1.
Proof. rewrite vlength_x_axis. abs_lra. Qed.

Lemma unit_y_axis : vlength (mkVector3 0 1 0) = 1.
Proof.
  unfold vlength. cbn [vx vy vz].
  replace (0 * 0 + 1 * 1 + 0 * 0) with 1 by ring. apply sqrt_1.
Qed.

Lemma capturePhoto_placement_witness :
  0 <= heightDraw photoEnv <= 1 /\
  exists p,
    capturePhoto photoEnv [] = [] ++ [p] /\
    vlength (scatterPos p) = SCATTER_RADIUS.
Proof.
  split; [cbn; lra |].
  destruct (capturePhoto_placement photoEnv [] (mkVideo 640 480)
              eq_refl eq_refl ltac:(cbn; lra) unit_x_axis unit_y_axis)
    as (p & Hp & _ & _ & Hs & _).
  exists p. split; [exact Hp | exact Hs].
Defined.

(** ** The pulse of the lights *)

Section Lights.

Variable lookAt : Object3D -> R -> Vector3 -> Vector3.

(** X14. In tree mode, away from a pinch, a render tick gives every LIGHT
    particle a uniform scale [(1 + 0.4 * sin(6 * time + treePos.x)) * 1.2],
    which lies between 0.72 and 1.68 whatever the time is. *)
Theorem light_pulse_bounds (time : R) (s : AppState) (i : nat) (p : Particle) :
  modeRef s = TREE -> gestureRef s <> PINCH_ZOOM ->
  nth_error (particlesRef s) i = Some p -> type p = LIGHT ->
  exists p' k,
    nth_error (particlesRef (animate lookAt time s)) i = Some p' /\
    scale (mesh p') = setScalar k /\
    k = (1 + sin (time * 6 + vx (treePos p)) * 0.4) * 1.2 /\
    0.72 <= k <= 1.68.
Proof.
  intros Hm Hg Hp Ht. unfold animate. cbn.
  rewrite nth_error_forEachIndexed, Hp. cbn.
  apply GestureType_eqb_neq in Hg.
  eexists. exists ((1 + sin (time * 6 + vx (treePos p)) * 0.4) * 1.2).
  split; [reflexivity |]. split; [| split; [reflexivity |]].
  - unfold animateParticle, behaviour. rewrite Hg, Hm.
    cbn [andb negb AppMode_eqb]. unfold treeBehaviour. rewrite Ht.
    reflexivity.
  - pose proof (SIN_bound (time * 6 + vx (treePos p))). lra.
Qed.

End Lights.

Lemma light_pulse_bounds_witness :
  let p := mkParticle (mkObject3D zero3 zero3 (setScalar 1)) LIGHT
                      (mkVector3 3 4 0) zero3 zero3 zero3 None None in
  let s := initialState [p] in
  modeRef s = TREE /\ gestureRef s <> PINCH_ZOOM /\
  exists p' k,
    nth_error (particlesRef (animate lookAtStub 0 s)) 0 = Some p' /\
    scale (mesh p') = setScalar k /\ 0.72 <= k <= 1.68.
Proof.
  cbv zeta. split; [reflexivity |]. split; [discriminate |].
  destruct (light_pulse_bounds lookAtStub 0
              (initialState
                 [mkParticle (mkObject3D zero3 zero3 (setScalar 1)) LIGHT
                             (mkVector3 3 4 0) zero3 zero3 zero3 None None])
              0 _ eq_refl ltac:(discriminate) eq_refl eq_refl)
    as (p' & k & Hp' & Hs & _ & Hk).
  exists p', k. split; [exact Hp' |]. split; [exact Hs | exact Hk].
Defined.

(** ** Holding the L shape *)

(** Frames that the loop will process one after the other from playback
    time [t] on, each showing a hand the classifier labels L_SHAPE_PHOTO:
    the video is ready and its playback time advances from frame to
    frame. *)
Fixpoint lShapeFrames (t : R) (fs : list VideoFrame) : Prop :=
  match fs with
  | [] => True
  | f :: rest =>
      (2 <= readyState f)%Z /\ t < currentTime f /\
      (exists lm more,
          landmarks f = lm :: more /\ detectGesture lm = Some L_SHAPE_PHOTO) /\
      lShapeFrames (currentTime f) rest
  end.

Section Trigger.

Variable lookAt : Object3D -> R -> Vector3 -> Vector3.

Lemma lShapeFrames_count (fs tail : list VideoFrame) :
  forall s,
    isCountingDownRef s = false ->
    lShapeFrames (lastVideoTime s) (fs ++ tail) ->
    (photoModeDebounceRef s + Z.of_nat (length fs) <= 10)%Z ->
    exists s',
      run lookAt s (map VideoEvent fs) = Some s' /\
      isCountingDownRef s' = false /\
      photoModeDebounceRef s' = (photoModeDebounceRef s + Z.of_nat (length fs))%Z /\
      intervals s' = intervals s /\ countdown s' = countdown s /\
      particlesRef s' = particlesRef s /\
      lShapeFrames (lastVideoTime s') tail.
Proof.
  induction fs as [| f fs IH]; intros s Hidle Hfs Hd.
  - exists s. cbn [map run length Z.of_nat].
    split; [reflexivity |]. split; [exact Hidle |]. split; [lia |].
    split; [reflexivity |]. split; [reflexivity |]. split; [reflexivity |].
    exact Hfs.
  - cbn [app lShapeFrames] in Hfs.
    destruct Hfs as (Hr & Ht & (lm & more & L & G) & Hrest).
    assert (P : processed s f = true) by (apply processed_fresh; [exact Hr | lra]).
    cbn [map run step].
    rewrite (visionLoop_classified f s lm more _ P L G). cbn [bind].
    set (s1 := set_lastVideoTime (currentTime f) s).
    assert (Hidle1 : isCountingDownRef s1 = false) by exact Hidle.
    destruct (onGesture_lShape_idle (lx (landmark lm 0)) s1 Hidle1)
      as (Hd1 & Hp1 & H).
    change (photoModeDebounceRef s1) with (photoModeDebounceRef s) in *.
    cbn [length] in Hd.
    destruct (photoModeDebounceRef s + 1 >? 10)%Z eqn:E; [lia |].
    destruct H as (Hc1 & Hi1 & Hcd1).
    destruct (IH (onGesture L_SHAPE_PHOTO (lx (landmark lm 0)) s1))
      as (s' & Hrun & Hidle' & Hd' & Hi' & Hcd' & Hp' & Htail).
    + exact Hc1.
    + rewrite onGesture_lastVideoTime. exact Hrest.
    + rewrite Hd1. lia.
    + exists s'. split; [exact Hrun |]. split; [exact Hidle' |].
      split; [rewrite Hd', Hd1; cbn [length]; lia |].
      split; [rewrite Hi', Hi1; reflexivity |].
      split; [rewrite Hcd', Hcd1; reflexivity |].
      split; [rewrite Hp', Hp1; reflexivity | exact Htail].
Qed.

(** X15. Holding the L shape starts the countdown at the eleventh frame.  From an
    idle state with a debounce count of zero and no live interval, ten
    processed L-shape frames in a row leave the machine idle with the
    display untouched, and the eleventh enters the countdown: the display
    shows 3, the camera preview is on and one interval holding 3 is live. *)
Theorem eleventh_lShape_frame_triggers (s : AppState) (fs : list VideoFrame)
    (f : VideoFrame) :
  isCountingDownRef s = false -> photoModeDebounceRef s = 0%Z ->
  intervals s = [] -> length fs = 10%nat ->
  lShapeFrames (lastVideoTime s) (fs ++ [f]) ->
  exists s10 s11,
    run lookAt s (map VideoEvent fs) = Some s10 /\
    isCountingDownRef s10 = false /\ countdown s10 = countdown s /\
    step lookAt s10 (VideoEvent f) = Some s11 /\
    run lookAt s (map VideoEvent (fs ++ [f])) = Some s11 /\
    isCountingDownRef s11 = true /\ countdown s11 = Some 3%Z /\
    showCamera s11 = true /\ intervals s11 = [3%Z] /\
    particlesRef s11 = particlesRef s.
Proof.
  intros Hidle Hd Hi Hlen Hfs.
  destruct (lShapeFrames_count fs [f] s Hidle Hfs)
    as (s10 & Hrun & Hidle10 & Hd10 & Hi10 & Hcd10 & Hp10 & Hlast).
  { rewrite Hd, Hlen. cbn. lia. }
  cbn [lShapeFrames] in Hlast.
  destruct Hlast as (Hr & Ht & (lm & more & L & G) & _).
  assert (P : processed s10 f = true) by (apply processed_fresh; [exact Hr | lra]).
  exists s10. eexists.
  split; [exact Hrun |]. split; [exact Hidle10 |]. split; [exact Hcd10 |].
  assert (Hstep : step lookAt s10 (VideoEvent f) =
                  Some (onGesture L_SHAPE_PHOTO (lx (landmark lm 0))
                          (set_lastVideoTime (currentTime f) s10))).
  { cbn [step]. apply (visionLoop_classified f s10 lm more _ P L G). }
  split; [exact Hstep |].
  split.
  { rewrite map_app, run_app, Hrun. cbn [bind map run]. rewrite Hstep.
    reflexivity. }
  set (s1 := set_lastVideoTime (currentTime f) s10).
  assert (Hidle1 : isCountingDownRef s1 = false) by exact Hidle10.
  destruct (onGesture_lShape_idle (lx (landmark lm 0)) s1 Hidle1)
    as (_ & Hp1 & H).
  change (photoModeDebounceRef s1) with (photoModeDebounceRef s10) in H.
  rewrite Hd10, Hd, Hlen in H.
  change ((0 + Z.of_nat 10 + 1 >? 10)%Z) with true in H.
  destruct H as (Hc & Hint & Hcd).
  split; [exact Hc |]. split; [exact Hcd |].
  split.
  { revert Hc. subst s1. unfold onGesture, photoStep, modeStep. cbn.
    rewrite Hidle10. cbn.
    destruct (photoModeDebounceRef s10 + 1 >? 10)%Z; cbn;
      [reflexivity | intros Hc; congruence]. }
  split.
  { rewrite Hint. change (intervals s1) with (intervals s10).
    rewrite Hi10, Hi. reflexivity. }
  rewrite Hp1. exact Hp10.
Qed.

End Trigger.

(** Ten L-shape frames at playback times 0 to 9. *)
Definition lShapeVideo : list VideoFrame :=
  map (handFrame lShapeHand) [0; 1; 2; 3; 4; 5; 6; 7; 8; 9].

Lemma lShapeVideo_frames :
  lShapeFrames (lastVideoTime (initialState []))
               (lShapeVideo ++ [handFrame lShapeHand 10]).
Proof.
  unfold lShapeVideo. cbn [map app lShapeFrames].
  repeat (split;
          [cbn; lia
          | split;
            [cbn [currentTime handFrame lastVideoTime initialState]; lra
            | split;
              [exists lShapeHand, [];
               split; [reflexivity | exact detectGesture_lShapeHand]
              | ]]]).
  exact I.
Qed.

Lemma eleventh_lShape_frame_triggers_witness :
  exists s10 s11,
    run lookAtStub (initialState []) (map VideoEvent lShapeVideo) = Some s10 /\
    isCountingDownRef s10 = false /\
    step lookAtStub s10 (VideoEvent (handFrame lShapeHand 10)) = Some s11 /\
    isCountingDownRef s11 = true /\ countdown s11 = Some 3%Z.
Proof.
  destruct (eleventh_lShape_frame_triggers lookAtStub (initialState [])
              lShapeVideo (handFrame lShapeHand 10)
              eq_refl eq_refl eq_refl eq_refl lShapeVideo_frames)
    as (s10 & s11 & H1 & H2 & _ & H3 & _ & H4 & H5 & _).
  exists s10, s11. repeat split; assumption.
Defined.

(** * The debounce count and frames without a hand *)

(** Eleven L-shape frames, at the even playback times 0 to 20, with a frame
    without a hand after each of the first ten. *)
Definition interruptedScenario : list Event :=
  [ VideoEvent (handFrame lShapeHand 0); VideoEvent (noHandFrame 1);
    VideoEvent (handFrame lShapeHand 2); VideoEvent (noHandFrame 3);
    VideoEvent (handFrame lShapeHand 4); VideoEvent (noHandFrame 5);
    VideoEvent (handFrame lShapeHand 6); VideoEvent (noHandFrame 7);
    VideoEvent (handFrame lShapeHand 8); VideoEvent (noHandFrame 9);
    VideoEvent (handFrame lShapeHand 10); VideoEvent (noHandFrame 11);
    VideoEvent (handFrame lShapeHand 12); VideoEvent (noHandFrame 13);
    VideoEvent (handFrame lShapeHand 14); VideoEvent (noHandFrame 15);
    VideoEvent (handFrame lShapeHand 16); VideoEvent (noHandFrame 17);
    VideoEvent (handFrame lShapeHand 18); VideoEvent (noHandFrame 19);
    VideoEvent (handFrame lShapeHand 20) ].

(** C2.  The code on a run in which the L shape is never held for two
    frames in a row.  The branch for a frame without a hand does not write
    the debounce count, while the branch for a hand with another label
    does: after an L-shape frame and a frame without a hand the count is
    still 1, after an L-shape frame and a frame with a half-open hand it is
    0.  So in [interruptedScenario] the count reaches 10 at the nineteenth
    frame and the countdown starts at the twenty-first, although a frame
    without a hand lies between any two of its L-shape frames. *)
Theorem missing_hand_keeps_debounce :
  (exists s,
     run lookAtStub (initialState [])
         [VideoEvent (handFrame lShapeHand 0); VideoEvent (noHandFrame 1)]
       = Some s /\
     gestureRef s = NONE /\ photoModeDebounceRef s = 1%Z) /\
  (exists s,
     run lookAtStub (initialState [])
         [VideoEvent (handFrame lShapeHand 0); VideoEvent (handFrame relaxedHand 1)]
       = Some s /\
     gestureRef s = NONE /\ photoModeDebounceRef s = 0%Z) /\
  (exists s,
     run lookAtStub (initialState []) (firstn 20 interruptedScenario) = Some s /\
     isCountingDownRef s = false /\ photoModeDebounceRef s = 10%Z) /\
  (exists s,
     run lookAtStub (initialState []) interruptedScenario = Some s /\
     isCountingDownRef s = true /\ countdown s = Some 3%Z /\
     intervals s = [3%Z] /\ showCamera s = true).
Proof.
  split; [| split; [| split]].
  - run_video. eexists. split; [reflexivity |]. split; reflexivity.
  - run_video. eexists. split; [reflexivity |]. split; reflexivity.
  - cbn [firstn interruptedScenario]. run_video. eexists.
    split; [reflexivity |]. split; reflexivity.
  - unfold interruptedScenario. run_video. eexists.
    split; [reflexivity |]. repeat split; reflexivity.
Qed.
